(** * Speech-synchronised presentation and render-surface bridge

    A shallow embedding of the narration code of the onboarding screens
    (TrainingScreen.tsx, WelcomeScreen.tsx) and of the bridge code of
    Avatar3D.tsx, with the properties of the specification stated over it.

    Conventions of the embedding.
    - A JavaScript string is a [string]; one character stands for one UTF-16
      code unit, so [String.length] is [.length].
    - A JavaScript number that carries a time is an exact rational ([Q]);
      rounding of IEEE doubles is not modelled.
    - An [async] function is run as one sequence of steps: every [await] of
      an external call is answered by a field of an environment record, and
      no other callback is delivered between two awaits of the same call.
    - A call of a state setter of React is recorded in the history of the
      component and takes effect at once while the component is mounted;
      after the unmount the call is still recorded, but React drops the
      update.  Batching of updates is not modelled. *)

From Stdlib Require Import List String Ascii Bool Arith Lia ZArith NArith QArith.
From Stdlib Require Import DecimalString.
Import ListNotations.

Set Warnings "-register-all".
Local Close Scope Q_scope.
Local Open Scope nat_scope.
Local Open Scope list_scope.
Local Open Scope string_scope.

(** ** JavaScript strings *)

Module JsString.

(** Truthiness of a string: only the empty string is falsy. *)
Definition truthy (s : string) : bool :=
  match s with
  | EmptyString => false
  | String _ _ => true
  end.

(** [s.split(sep)] for a separator of one character.  The result is never
    empty: the empty string splits into one empty piece. *)
Fixpoint split (sep : ascii) (s : string) : list string :=
  match s with
  | EmptyString => [EmptyString]
  | String a rest =>
      if Ascii.eqb a sep then EmptyString :: split sep rest
      else match split sep rest with
           | [] => [String a EmptyString]
           | w :: ws => String a w :: ws
           end
  end.

Definition space : ascii := " "%char.

(** [s.split(" ")]. *)
Definition words (s : string) : list string := split space s.

(** [ws.join(" ")]. *)
Definition unwords (ws : list string) : string := String.concat " " ws.

(** [s.split(" ").length]. *)
Definition wordCount (s : string) : nat := List.length (words s).

(** Does character [c] occur in [s]? *)
Fixpoint has_char (c : ascii) (s : string) : bool :=
  match s with
  | EmptyString => false
  | String a rest => Ascii.eqb a c || has_char c rest
  end.

(** [hay.includes(needle)]. *)
Fixpoint includes (hay needle : string) : bool :=
  String.prefix needle hay
  || match hay with
     | EmptyString => false
     | String _ rest => includes rest needle
     end.

End JsString.

(** ** SubtitleChunker: [splitIntoChunks] *)

Module Chunker.
Import JsString.

(** The character threshold of a subtitle line. *)
Definition threshold : nat := 50.

(** Loop state of [words.forEach]: the closed chunks and [currentChunk]. *)
Definition acc : Type := (list string * string)%type.

(** One iteration of the [forEach] callback. *)
Definition step (st : acc) (word : string) : acc :=
  let '(chunks, currentChunk) := st in
  let testChunk :=
    if truthy currentChunk then currentChunk ++ " " ++ word else word in
  if (threshold <? String.length testChunk)%nat && truthy currentChunk
  then ((chunks ++ [currentChunk])%list, word)
  else (chunks, testChunk).

(** The trailing [if (currentChunk) chunks.push(currentChunk)]. *)
Definition flush (st : acc) : list string :=
  let '(chunks, currentChunk) := st in
  if truthy currentChunk then (chunks ++ [currentChunk])%list else chunks.

Definition splitIntoChunks (text : string) : list string :=
  flush (fold_left step (words text) ([], "")).

(** A chunk respects the line limit when it is short enough, or when it is
    one whole word of the text that is itself longer than the limit. *)
Definition within_limit (text chunk : string) : Prop :=
  String.length chunk <= threshold
  \/ (threshold < String.length chunk /\ In chunk (words text)
      /\ has_char space chunk = false).

(** The text has no leading, trailing or doubled space: every piece of
    [text.split(" ")] is non-empty. *)
Definition well_spaced (text : string) : Prop :=
  Forall (fun w => w <> "") (words text).

(** The reconstruction property of the specification, for one text. *)
Definition reconstructs (text : string) : Prop :=
  unwords (flat_map words (splitIntoChunks text)) = text.

(** The loop invariant of the line limit: closed chunks respect it, and so
    does the running line once it is not empty. *)
Definition limit_inv (text : string) (st : acc) : Prop :=
  Forall (within_limit text) (fst st)
  /\ (snd st = "" \/ within_limit text (snd st)).

(** A word is kept whole when it is a closed chunk or the running line. *)
Definition kept (st : acc) (w : string) : Prop :=
  In w (fst st) \/ w = snd st.

End Chunker.

(** ** SynchronizedSubtitlePresenter: [showSubtitlesWithAudio] *)

Module Presenter.
Import JsString.

(** What the presenter does, in program order.  [Wait ms] is one
    [await new Promise(resolve => setTimeout(resolve, ms))]. *)
Inductive Action : Type :=
| SetOpacity (v : Q)
| SetTranslateY (v : Q)
| Display (text : string)
| Wait (ms : Q).

(** The fixed gap between two chunks, in milliseconds. *)
Definition gapMs : Q := 100%Q.

Definition num (n : nat) : Q := inject_Z (Z.of_nat n).

(** [chunks.reduce((sum, chunk) => sum + chunk.split(" ").length, 0)]. *)
Definition totalWords (chunks : list string) : nat :=
  fold_left (fun sum chunk => sum + wordCount chunk) chunks 0.

(** The [for] loop, entered at index [i]; [fuel] bounds the iterations that
    are left. *)
Fixpoint loop (chunks : list string) (msPerWord : Q) (fuel i : nat)
  : list Action :=
  match fuel with
  | O => []
  | S fuel' =>
      if (i <? List.length chunks)%nat then
        let chunk := nth i chunks "" in
        let duration := (num (wordCount chunk) * msPerWord)%Q in
        ([Display chunk; Wait duration]
         ++ (if (i <? List.length chunks - 1)%nat
             then [Display ""; Wait gapMs] else [])
         ++ loop chunks msPerWord fuel' (S i))%list
      else []
  end.

Definition showSubtitlesWithAudio (chunks : list string) (audioDurationMs : Q)
  : list Action :=
  let msPerWord := (audioDurationMs / num (totalWords chunks))%Q in
  SetOpacity 1 :: SetTranslateY 0
  :: loop chunks msPerWord (List.length chunks) 0.

(** The schedule in the words of the specification: every chunk is shown
    for its share of the duration, and a gap follows every chunk but the
    last. *)
Fixpoint schedule (msPerWord : Q) (chunks : list string) : list Action :=
  match chunks with
  | [] => []
  | [c] => [Display c; Wait (num (wordCount c) * msPerWord)]
  | c :: rest =>
      Display c :: Wait (num (wordCount c) * msPerWord)
      :: Display "" :: Wait gapMs :: schedule msPerWord rest
  end.

(** Display time of every chunk, in order. *)
Definition displayDurations (chunks : list string) (audioDurationMs : Q)
  : list Q :=
  let msPerWord := (audioDurationMs / num (totalWords chunks))%Q in
  map (fun c => (num (wordCount c) * msPerWord)%Q) chunks.

Definition Qsum (l : list Q) : Q := fold_right Qplus 0%Q l.

(** Rationals in lowest terms, to compare traces by [=]. *)
Definition normalise (a : Action) : Action :=
  match a with
  | SetOpacity v => SetOpacity (Qred v)
  | SetTranslateY v => SetTranslateY (Qred v)
  | Display t => Display t
  | Wait ms => Wait (Qred ms)
  end.

End Presenter.

(** ** JavaScript control flow, JSON values and the platform calls *)

Module Js.

(** How a call ends: it returns a value or throws (an [async] call that
    rejects is a call that throws at its [await]). *)
Inductive outcome (A : Type) : Type :=
| Returned (a : A)
| Thrown (error : string).
Arguments Returned {A} a.
Arguments Thrown {A} error.

(** Computations over a mutable state [S] that may throw. *)
Definition M (S A : Type) : Type := S -> outcome A * S.

Definition ret {S A} (a : A) : M S A := fun s => (Returned a, s).

Definition bind {S A B} (c : M S A) (k : A -> M S B) : M S B :=
  fun s =>
    match c s with
    | (Returned a, s') => k a s'
    | (Thrown e, s') => (Thrown e, s')
    end.

Definition throw {S A} (error : string) : M S A := fun s => (Thrown error, s).

(** [try { body } catch (error) { handler }]. *)
Definition try_catch {S} (body : M S unit) (handler : string -> M S unit)
  : M S unit :=
  fun s =>
    match body s with
    | (Returned a, s') => (Returned a, s')
    | (Thrown e, s') => handler e s'
    end.

Definition gets {S A} (f : S -> A) : M S A := fun s => (Returned (f s), s).
Definition modify {S} (f : S -> S) : M S unit := fun s => (Returned tt, f s).

(** The state a computation leaves behind, whatever its outcome. *)
Definition exec {S A} (c : M S A) (s : S) : S := snd (c s).

(** A call of an [async] function whose promise is dropped: what the call
    does happens, and nobody sees whether it resolves or rejects. *)
Definition notAwaited {S A} (c : M S A) : M S unit :=
  fun s => (Returned tt, snd (c s)).

(** [P] before [c] gives [Q] when [c] returns and [E] when it throws. *)
Definition triple {S A} (P : S -> Prop) (c : M S A)
  (Q : A -> S -> Prop) (E : S -> Prop) : Prop :=
  forall s, P s ->
    match c s with
    | (Returned a, s') => Q a s'
    | (Thrown _, s') => E s'
    end.

(** [c] keeps [I], however it ends. *)
Definition stable {S A} (I : S -> Prop) (c : M S A) : Prop :=
  forall s, I s -> I (exec c s).

Declare Scope js_scope.
Delimit Scope js_scope with js.
Notation "x <- c ;; k" := (bind c (fun x => k))
  (at level 61, c at next level, right associativity) : js_scope.
Notation "c ;;; k" := (bind c (fun _ => k))
  (at level 61, right associativity) : js_scope.

(** A JSON value, as [JSON.parse] returns it and [JSON.stringify] takes it. *)
Inductive json : Type :=
| JNull
| JBool (b : bool)
| JNumber (q : Q)
| JString (s : string)
| JArray (items : list json)
| JObject (members : list (string * json)).

(** Own property [key] of an object literal; a later member of the same
    name overrides an earlier one. *)
Fixpoint lookup (key : string) (members : list (string * json))
  : option json :=
  match members with
  | [] => None
  | (k, v) :: rest =>
      match lookup key rest with
      | Some v' => Some v'
      | None => if String.eqb k key then Some v else None
      end
  end.

(** [value.key]: reading a property of [null] throws a TypeError, reading
    a missing property gives [undefined] ([None]). *)
Definition getProp {S} (value : json) (key : string) : M S (option json) :=
  match value with
  | JNull => throw "TypeError: Cannot read properties of null"
  | JObject members => ret (lookup key members)
  | _ => ret None
  end.

(** [v === "literal"]. *)
Definition strictEqString (v : option json) (literal : string) : bool :=
  match v with
  | Some (JString s) => String.eqb s literal
  | _ => false
  end.

End Js.

(** ** The platform: speech provider, file system and audio engine *)

Module Platform.
Import Js.
Local Open Scope js_scope.

(** An outbound HTTP request; [body] is the value handed to
    [JSON.stringify]. *)
Record Request : Type := {
  url : string;
  method : string;
  headers : list (string * string);
  body : json
}.

(** A decoded sound of the audio engine, named by its creation rank. *)
Definition Sound : Type := nat.

Inductive Stage : Type := speaking | continue.

(** Everything the screens do that can be observed from outside, in the
    order in which it happens ([console.log] is left out). *)
Inductive Event : Type :=
| SetAudioMode
| Fetch (request : Request)
| WriteFile (uri : string) (audio : list Byte.byte)
| Unload (sound : Sound)
| UnloadRejected (sound : Sound)
| Create (sound : Sound) (uri : string)
| GetStatus (sound : Sound)
| SetOnPlaybackStatusUpdate (sound : Sound)
| OnDurationReady (durationMs : Q)
| PresenterStarted (durationMs : Q)
| OnFinish
| OnGreetingComplete
| SetCurrentSubtitle (text : string)
| FadeOutSubtitle
| SetStage (stage : Stage)
| SetError (error : option string)
| SetHasPlayedGreeting (value : bool)
| PostMessage (payload : json)
| CameraPosition (x y z : Q)
| ControlsTarget (x y z : Q)
| ControlsUpdate
| LoadAnimation (uri : string)
| ConsoleError (error : string).

(** The [Response] of [fetch]; [arrayBuffer] is [None] when reading the
    body rejects. *)
Record Response : Type := {
  ok : bool;
  status : nat;
  arrayBuffer : option (list Byte.byte)
}.

(** The playback status of the audio engine.  [durationMillis] is a
    number of JavaScript, of either sign, or absent ([None]: [undefined],
    or [NaN], which is falsy as well); the code tests it by truthiness
    only. *)
Record AVPlaybackStatus : Type := {
  isLoaded : bool;
  durationMillis : option Q;
  didJustFinish : bool
}.

(** What the outside world answers to one run of a narration call. *)
Record Env : Type := {
  apiKey : string;                        (* process.env...ELEVENLABS_API_KEY *)
  cacheDirectory : string;                (* FileSystem.cacheDirectory *)
  audioMode_ok : bool;                    (* Audio.setAudioModeAsync resolves *)
  fetch_reply : option Response;          (* [None]: fetch rejects *)
  write_ok : bool;                        (* writeAsStringAsync resolves *)
  unload_ok : bool;                       (* unloadAsync resolves *)
  create_ok : bool;                       (* Audio.Sound.createAsync resolves *)
  status_reply : option AVPlaybackStatus  (* [None]: getStatusAsync rejects *)
}.

(** A component state that keeps the history of its observable events. *)
Class Traced (S : Type) : Type := {
  trace : S -> list Event;
  record : Event -> S -> S
}.

Definition log {S} `{Traced S} (e : Event) : M S unit := modify (record e).

(** Number of sounds created so far: the rank of the next one. *)
Fixpoint created (evs : list Event) : nat :=
  match evs with
  | [] => 0
  | Create _ _ :: rest => S (created rest)
  | _ :: rest => created rest
  end.

Definition setAudioModeAsync {S} `{Traced S} (env : Env) : M S unit :=
  log SetAudioMode ;;;
  if audioMode_ok env then ret tt else throw "setAudioModeAsync rejected".

Definition fetch {S} `{Traced S} (request : Request) (env : Env)
  : M S Response :=
  log (Fetch request) ;;;
  match fetch_reply env with
  | Some response => ret response
  | None => throw "TypeError: Network request failed"
  end.

Definition readArrayBuffer {S} (response : Response) : M S (list Byte.byte) :=
  match arrayBuffer response with
  | Some bytes => ret bytes
  | None => throw "arrayBuffer rejected"
  end.

(** The file receives the audio bytes (they travel base64-encoded). *)
Definition writeAsStringAsync {S} `{Traced S}
  (uri : string) (audio : list Byte.byte) (env : Env) : M S unit :=
  if write_ok env then log (WriteFile uri audio)
  else throw "writeAsStringAsync rejected".

Definition unloadAsync {S} `{Traced S} (sound : Sound) (env : Env) : M S unit :=
  if unload_ok env then log (Unload sound)
  else log (UnloadRejected sound) ;;; throw "unloadAsync rejected".

Definition createAsync {S} `{Traced S} (uri : string) (env : Env) : M S Sound :=
  if create_ok env then
    sound <- gets (fun s => created (trace s)) ;;
    log (Create sound uri) ;;;
    ret sound
  else throw "createAsync rejected".

Definition getStatusAsync {S} `{Traced S} (sound : Sound) (env : Env)
  : M S AVPlaybackStatus :=
  log (GetStatus sound) ;;;
  match status_reply env with
  | Some st => ret st
  | None => throw "getStatusAsync rejected"
  end.

(** Sounds that are loaded in the audio engine after the events [evs],
    starting from the loaded sounds [live]. *)
Definition apply_event (live : list Sound) (e : Event) : list Sound :=
  match e with
  | Create s _ => s :: live
  | Unload s => List.remove Nat.eq_dec s live
  | _ => live
  end.

Definition liveSounds (evs : list Event) : list Sound :=
  fold_left apply_event evs [].

(** The synthesis step fails: the request is rejected, the provider does
    not answer with success, or the audio cannot be read or stored. *)
Definition synthesisFails (env : Env) : bool :=
  match fetch_reply env with
  | None => true
  | Some response =>
      negb (ok response)
      || match arrayBuffer response with
         | None => true
         | Some _ => negb (write_ok env)
         end
  end.

(** The history [evs] never had two sounds loaded at once. *)
Definition neverTwoLive (evs : list Event) : Prop :=
  forall before after,
    evs = (before ++ after)%list -> List.length (liveSounds before) <= 1.

(** The at-most-one-live-resource invariant of a controller with history
    [evs] and slot [slot] ([soundRef.current]): no two sounds were ever
    loaded at once, a loaded sound is the one in the slot, and loaded
    sounds have ranks that are already spent. *)
Definition audioOk (evs : list Event) (slot : option Sound) : Prop :=
  neverTwoLive evs
  /\ (forall s, In s (liveSounds evs) -> slot = Some s)
  /\ (forall s, In s (liveSounds evs) -> s < created evs).

(** Events that neither load nor release a sound. *)
Definition neutral (e : Event) : Prop :=
  match e with
  | Create _ _ | Unload _ => False
  | _ => True
  end.

(** How many events of a history pass the test [p]. *)
Definition count (p : Event -> bool) (evs : list Event) : nat :=
  List.length (filter p evs).
Arguments count p evs : simpl never.

(** Tests on events: a call of the completion callback, a call of
    [onDurationReady], a start of the presenter, an update of the display,
    a request to the provider, a command to the surface, a start of the
    greeting ([playGreeting] opens with [Audio.setAudioModeAsync]), a call
    of [onGreetingComplete]. *)
Definition isFinish (e : Event) : bool :=
  match e with OnFinish => true | _ => false end.
Definition isDurationReady (e : Event) : bool :=
  match e with OnDurationReady _ => true | _ => false end.
Definition isPresenterStart (e : Event) : bool :=
  match e with PresenterStarted _ => true | _ => false end.
Definition isDisplay (e : Event) : bool :=
  match e with SetCurrentSubtitle _ => true | _ => false end.
Definition isFetch (e : Event) : bool :=
  match e with Fetch _ => true | _ => false end.
Definition isPost (e : Event) : bool :=
  match e with PostMessage _ => true | _ => false end.
Definition isGreetingStart (e : Event) : bool :=
  match e with SetAudioMode => true | _ => false end.
Definition isGreetingComplete (e : Event) : bool :=
  match e with OnGreetingComplete => true | _ => false end.

(** The status reports no duration: the sound is not loaded, or
    [durationMillis] is absent or zero. *)
Definition noDuration (st : AVPlaybackStatus) : bool :=
  negb (isLoaded st)
  || match durationMillis st with
     | None => true
     | Some d => Qeq_bool d 0
     end.

(** The audio loads (every platform call of the load resolves) but its
    status reports no duration. *)
Definition loadsWithoutDuration (env : Env) : bool :=
  negb (synthesisFails env) && unload_ok env && create_ok env
  && match status_reply env with
     | Some st => noDuration st
     | None => false
     end.

(** Events other than a request to the speech provider. *)
Definition notFetch (e : Event) : Prop :=
  match e with
  | Fetch _ => False
  | _ => True
  end.

(** A presenter is started with a duration that is not zero. *)
Definition nonZeroStart (e : Event) : Prop :=
  match e with
  | PresenterStarted d => ~ (d == 0)%Q
  | _ => True
  end.

(** A presenter is started with a positive duration. *)
Definition positiveStart (e : Event) : Prop :=
  match e with
  | PresenterStarted d => (0 < d)%Q
  | _ => True
  end.

(** The audio engine reports no negative duration. *)
Definition reportsNoNegative (env : Env) : Prop :=
  match status_reply env with
  | Some st =>
      match durationMillis st with
      | Some d => (0 <= d)%Q
      | None => True
      end
  | None => True
  end.

(** The history grew from [start] by events that all satisfy [P]. *)
Definition grewBy (P : Event -> Prop) (start now : list Event) : Prop :=
  exists evs, now = (start ++ evs)%list /\ Forall P evs.

(** Decimal rendering of a status code, for the error message. *)
Definition decimal (n : nat) : string :=
  DecimalString.NilEmpty.string_of_uint (Nat.to_uint n).

(** The request literal of both narration functions. *)
Definition voiceSettings : json :=
  JObject [("stability", JNumber (7 # 10));
           ("similarity_boost", JNumber (1 # 2));
           ("style", JNumber 0);
           ("use_speaker_boost", JBool false)].

Definition apiUrl (voiceId : string) : string :=
  "https://api.elevenlabs.io/v1/text-to-speech/" ++ voiceId
  ++ "?output_format=mp3_44100_128".

Definition synthesisRequest (key voiceId text : string) : Request :=
  {| url := apiUrl voiceId;
     method := "POST";
     headers := [("xi-api-key", key); ("Content-Type", "application/json")];
     body := JObject [("text", JString text);
                      ("model_id", JString "eleven_flash_v2_5");
                      ("voice_settings", voiceSettings)] |}.

(** The voices of the application. *)
Definition narratorVoice : string := "9BWtsMINqrJLrRacOk9x".
Definition maleVoice : string := "iP95p4xoKVk53GoZ742B".
Definition femaleVoice : string := "21m00Tcm4TlvDq8ikWAM".

End Platform.

(** ** PresentationSession on the training screen (TrainingScreen.tsx) *)

Module Training.
Import JsString Presenter Js Platform.
Local Open Scope js_scope.

(** The completion callbacks that the screens pass as [onFinish]: the
    [resolve] of the [audioPromise] of a [speak...] call. *)
Inductive FinishCallback : Type :=
| Resolve (session : nat).

(** The callbacks passed as [onDurationReady]: the closure over the flag
    [subtitlesStarted] and the chunks of a [speak...] call. *)
Inductive DurationCallback : Type :=
| StartSubtitles (session : nat) (chunks : list string).

(** State of one screen, from its mount on. *)
Record Host : Type := {
  stage : Stage;
  currentSubtitle : string;
  soundRef : option Sound;                      (* soundRef.current *)
  listeners : list (Sound * FinishCallback);    (* playback-status callbacks *)
  sessions : nat;                               (* speak... calls so far *)
  settled : list nat;                           (* resolved audioPromises *)
  subtitlesStarted : list nat;                  (* flags that are set *)
  tasks : list (list Action);                   (* presenter runs parked on a timer *)
  mounted : bool;                               (* React still renders the screen *)
  history : list Event
}.

Definition initial : Host :=
  {| stage := speaking; currentSubtitle := ""; soundRef := None;
     listeners := []; sessions := 0; settled := []; subtitlesStarted := [];
     tasks := []; mounted := true; history := [] |}.

Definition with_stage (v : Stage) (h : Host) : Host :=
  {| stage := v; currentSubtitle := currentSubtitle h;
     soundRef := soundRef h; listeners := listeners h;
     sessions := sessions h; settled := settled h;
     subtitlesStarted := subtitlesStarted h; tasks := tasks h;
     mounted := mounted h; history := history h |}.

Definition with_currentSubtitle (v : string) (h : Host) : Host :=
  {| stage := stage h; currentSubtitle := v; soundRef := soundRef h;
     listeners := listeners h; sessions := sessions h; settled := settled h;
     subtitlesStarted := subtitlesStarted h; tasks := tasks h;
     mounted := mounted h; history := history h |}.

Definition with_soundRef (v : option Sound) (h : Host) : Host :=
  {| stage := stage h; currentSubtitle := currentSubtitle h; soundRef := v;
     listeners := listeners h; sessions := sessions h; settled := settled h;
     subtitlesStarted := subtitlesStarted h; tasks := tasks h;
     mounted := mounted h; history := history h |}.

Definition with_listeners (v : list (Sound * FinishCallback)) (h : Host)
  : Host :=
  {| stage := stage h; currentSubtitle := currentSubtitle h;
     soundRef := soundRef h; listeners := v; sessions := sessions h;
     settled := settled h; subtitlesStarted := subtitlesStarted h;
     tasks := tasks h; mounted := mounted h; history := history h |}.

Definition with_sessions (v : nat) (h : Host) : Host :=
  {| stage := stage h; currentSubtitle := currentSubtitle h;
     soundRef := soundRef h; listeners := listeners h; sessions := v;
     settled := settled h; subtitlesStarted := subtitlesStarted h;
     tasks := tasks h; mounted := mounted h; history := history h |}.

Definition with_settled (v : list nat) (h : Host) : Host :=
  {| stage := stage h; currentSubtitle := currentSubtitle h;
     soundRef := soundRef h; listeners := listeners h;
     sessions := sessions h; settled := v;
     subtitlesStarted := subtitlesStarted h; tasks := tasks h;
     mounted := mounted h; history := history h |}.

Definition with_subtitlesStarted (v : list nat) (h : Host) : Host :=
  {| stage := stage h; currentSubtitle := currentSubtitle h;
     soundRef := soundRef h; listeners := listeners h;
     sessions := sessions h; settled := settled h; subtitlesStarted := v;
     tasks := tasks h; mounted := mounted h; history := history h |}.

Definition with_tasks (v : list (list Action)) (h : Host) : Host :=
  {| stage := stage h; currentSubtitle := currentSubtitle h;
     soundRef := soundRef h; listeners := listeners h;
     sessions := sessions h; settled := settled h;
     subtitlesStarted := subtitlesStarted h; tasks := v;
     mounted := mounted h; history := history h |}.

Definition with_mounted (v : bool) (h : Host) : Host :=
  {| stage := stage h; currentSubtitle := currentSubtitle h;
     soundRef := soundRef h; listeners := listeners h;
     sessions := sessions h; settled := settled h;
     subtitlesStarted := subtitlesStarted h; tasks := tasks h; mounted := v;
     history := history h |}.

Definition with_history (v : list Event) (h : Host) : Host :=
  {| stage := stage h; currentSubtitle := currentSubtitle h;
     soundRef := soundRef h; listeners := listeners h;
     sessions := sessions h; settled := settled h;
     subtitlesStarted := subtitlesStarted h; tasks := tasks h;
     mounted := mounted h; history := v |}.

#[export] Instance Host_Traced : Traced Host :=
  {| trace := history;
     record := fun e h => with_history (history h ++ [e])%list h |}.

Definition mem (n : nat) (l : list nat) : bool := existsb (Nat.eqb n) l.
Arguments mem n l : simpl never.

(** The state setters of the screen.  The call is recorded; React applies
    the update while the screen is mounted and drops it afterwards. *)
Definition setCurrentSubtitle (text : string) : M Host unit :=
  log (SetCurrentSubtitle text) ;;;
  alive <- gets mounted ;;
  if alive then modify (with_currentSubtitle text) else ret tt.

Definition setStage (v : Stage) : M Host unit :=
  log (SetStage v) ;;;
  alive <- gets mounted ;;
  if alive then modify (with_stage v) else ret tt.

(** Runs a presenter from where it stands to its next [await]: the display
    updates happen now, the rest stays parked on the timer. *)
Fixpoint advance (todo : list Action) : M Host (list Action) :=
  match todo with
  | [] => ret []
  | Wait _ :: rest => ret rest
  | Display text :: rest => setCurrentSubtitle text ;;; advance rest
  | _ :: rest => advance rest
  end.

(** What follows [await audioPromise] in a [speak...] call: the subtitle
    fades out and, 400ms later, the stage changes. *)
Definition afterAudio : M Host unit :=
  log FadeOutSubtitle ;;; setStage continue.

(** [resolve()] of the [audioPromise] of a session: the first call settles
    the promise and releases what awaits it, later calls do nothing. *)
Definition resolve (session : nat) : M Host unit :=
  done <- gets (fun h => mem session (settled h)) ;;
  if done then ret tt
  else modify (fun h => with_settled (session :: settled h) h) ;;; afterAudio.

Definition callFinish (onFinish : FinishCallback) : M Host unit :=
  log OnFinish ;;;
  match onFinish with
  | Resolve session => resolve session
  end.

Definition callDurationReady (cb : DurationCallback) (durationMs : Q)
  : M Host unit :=
  log (OnDurationReady durationMs) ;;;
  match cb with
  | StartSubtitles session chunks =>
      started <- gets (fun h => mem session (subtitlesStarted h)) ;;
      if started then ret tt
      else
        modify (fun h => with_subtitlesStarted (session :: subtitlesStarted h) h) ;;;
        log (PresenterStarted durationMs) ;;;
        rest <- advance (showSubtitlesWithAudio chunks durationMs) ;;
        modify (fun h => with_tasks (tasks h ++ [rest])%list h)
  end.

Definition setOnPlaybackStatusUpdate (sound : Sound) (onFinish : FinishCallback)
  : M Host unit :=
  log (SetOnPlaybackStatusUpdate sound) ;;;
  modify (fun h => with_listeners ((sound, onFinish) :: listeners h) h).

Definition playElevenLabsAudio
  (text : string) (onFinish : FinishCallback)
  (onDurationReady : option DurationCallback) (env : Env) : M Host unit :=
  try_catch
    (let voiceId := narratorVoice in
     response <- fetch (synthesisRequest (apiKey env) voiceId text) env ;;
     if negb (ok response)
     then throw ("API request failed with status " ++ decimal (status response))
     else
       audioBuffer <- readArrayBuffer response ;;
       let fileUri := cacheDirectory env ++ "temp_audio.mp3" in
       writeAsStringAsync fileUri audioBuffer env ;;;
       previous <- gets soundRef ;;
       match previous with
       | Some old => unloadAsync old env
       | None => ret tt
       end ;;;
       sound <- createAsync fileUri env ;;
       modify (with_soundRef (Some sound)) ;;;
       st <- getStatusAsync sound env ;;
       match isLoaded st, durationMillis st, onDurationReady with
       | true, Some d, Some cb =>
           if Qeq_bool d 0 then ret tt else callDurationReady cb d
       | _, _, _ => ret tt
       end ;;;
       setOnPlaybackStatusUpdate sound onFinish)
    (fun error =>
       log (ConsoleError error) ;;;
       callFinish onFinish).

(** The em dash of the training text: one UTF-16 code unit. *)
Definition emDash : string := String "151"%char "".

Definition trainingText : string :=
  "Your agent looks impressive, but it still needs a brain. What sets our agents apart is that each one is built by you in real time. From the moment it's created, it learns only from the information you provide, allowing it to become a perfectly tailored salesperson designed exclusively for your business. Now it's time to train your agent"
  ++ emDash ++
  "teach it everything about your company and include as much detail as possible so it can truly represent your brand.".

Definition speakTrainingMessage (env : Env) : M Host unit :=
  setStage speaking ;;;
  let chunks := Chunker.splitIntoChunks trainingText in
  session <- gets sessions ;;
  modify (fun h => with_sessions (S (sessions h)) h) ;;;
  playElevenLabsAudio trainingText (Resolve session)
    (Some (StartSubtitles session chunks)) env.

(** The callback registered on a sound receives a status. *)
Definition onPlaybackStatusUpdate (sound : Sound) (st : AVPlaybackStatus)
  : M Host unit :=
  registered <- gets listeners ;;
  match find (fun entry => Nat.eqb (fst entry) sound) registered with
  | Some (_, onFinish) =>
      if isLoaded st && didJustFinish st then callFinish onFinish else ret tt
  | None => ret tt
  end.

(** A [setTimeout] of presenter run [i] fires. *)
Definition timerFired (i : nat) : M Host unit :=
  parked <- gets tasks ;;
  match nth_error parked i with
  | Some todo =>
      rest <- advance todo ;;
      modify (fun h =>
        with_tasks (firstn i (tasks h) ++ rest :: skipn (S i) (tasks h))%list h)
  | None => ret tt
  end.

(** The cleanup of the unmount effect.  [unloadAsync] is called and not
    awaited, so its rejection is not thrown here. *)
Definition unmountCleanup (env : Env) : M Host unit :=
  current <- gets soundRef ;;
  match current with
  | Some sound => notAwaited (unloadAsync sound env)
  | None => ret tt
  end.

(** What can happen to a screen.  [Unmount env]: React runs the cleanup of
    the unmount effect, where [env] answers the release, and stops
    rendering the screen. *)
Inductive Input : Type :=
| Start (env : Env)
| PlaybackStatus (sound : Sound) (st : AVPlaybackStatus)
| TimerFired (task : nat)
| Unmount (env : Env).

Definition handle (i : Input) : M Host unit :=
  match i with
  | Start env => speakTrainingMessage env
  | PlaybackStatus sound st => onPlaybackStatusUpdate sound st
  | TimerFired task => timerFired task
  | Unmount env => unmountCleanup env ;;; modify (with_mounted false)
  end.

Definition step (h : Host) (i : Input) : Host := exec (handle i) h.

Definition run (inputs : list Input) (h : Host) : Host :=
  fold_left step inputs h.

(** The audio engine reports no negative duration in the load of input
    [i]. *)
Definition noNegativeReport (i : Input) : Prop :=
  match i with
  | Start env => reportsNoNegative env
  | _ => True
  end.

(** A property of the history and of the slot, as a property of the
    screen. *)
Definition hist_inv (Phi : list Event -> option Sound -> Prop) (h : Host)
  : Prop :=
  Phi (history h) (soundRef h).





(** The durations handed to [showSubtitlesWithAudio] so far. *)
Fixpoint presenterDurations (evs : list Event) : list Q :=
  match evs with
  | [] => []
  | PresenterStarted d :: rest => d :: presenterDurations rest
  | _ :: rest => presenterDurations rest
  end.

End Training.

(** ** The avatar view and its render-surface bridge (Avatar3D.tsx) *)

Module Avatar3D.
Import JsString Js Platform.
Local Open Scope js_scope.

Inductive Gender : Type := male | female.

(** The props of the component; [onGreetingComplete] tells whether the
    optional callback was passed. *)
Record Props : Type := {
  accepted : bool;
  userName : string;
  onGreetingComplete : bool
}.

(** State of one component instance. *)
Record Avatar : Type := {
  loading : bool;
  error : option string;
  hasPlayedGreeting : bool;
  avatarGender : Gender;
  greetingSounds : list Sound;      (* sounds carrying the greeting callback *)
  history : list Event
}.

Definition initial : Avatar :=
  {| loading := true; error := None; hasPlayedGreeting := false;
     avatarGender := male; greetingSounds := []; history := [] |}.

Definition with_loading (v : bool) (a : Avatar) : Avatar :=
  {| loading := v; error := error a; hasPlayedGreeting := hasPlayedGreeting a;
     avatarGender := avatarGender a; greetingSounds := greetingSounds a;
     history := history a |}.

Definition with_error (v : option string) (a : Avatar) : Avatar :=
  {| loading := loading a; error := v;
     hasPlayedGreeting := hasPlayedGreeting a; avatarGender := avatarGender a;
     greetingSounds := greetingSounds a; history := history a |}.

Definition with_hasPlayedGreeting (v : bool) (a : Avatar) : Avatar :=
  {| loading := loading a; error := error a; hasPlayedGreeting := v;
     avatarGender := avatarGender a; greetingSounds := greetingSounds a;
     history := history a |}.

Definition with_avatarGender (v : Gender) (a : Avatar) : Avatar :=
  {| loading := loading a; error := error a;
     hasPlayedGreeting := hasPlayedGreeting a; avatarGender := v;
     greetingSounds := greetingSounds a; history := history a |}.

Definition with_greetingSounds (v : list Sound) (a : Avatar) : Avatar :=
  {| loading := loading a; error := error a;
     hasPlayedGreeting := hasPlayedGreeting a; avatarGender := avatarGender a;
     greetingSounds := v; history := history a |}.

Definition with_history (v : list Event) (a : Avatar) : Avatar :=
  {| loading := loading a; error := error a;
     hasPlayedGreeting := hasPlayedGreeting a; avatarGender := avatarGender a;
     greetingSounds := greetingSounds a; history := v |}.

#[export] Instance Avatar_Traced : Traced Avatar :=
  {| trace := history;
     record := fun e a => with_history (history a ++ [e])%list a |}.

Definition setError (v : option string) : M Avatar unit :=
  log (SetError v) ;;; modify (with_error v).

Definition setHasPlayedGreeting (v : bool) : M Avatar unit :=
  log (SetHasPlayedGreeting v) ;;; modify (with_hasPlayedGreeting v).

(** The command of the bridge, before [JSON.stringify]. *)
Definition switchToTalking : json :=
  JObject [("action", JString "switchToTalking")].

Definition greetingVoice (g : Gender) : string :=
  match g with
  | male => maleVoice
  | female => femaleVoice
  end.

Definition callGreetingComplete (props : Props) : M Avatar unit :=
  if onGreetingComplete props then log OnGreetingComplete else ret tt.

Definition playGreeting (props : Props) (env : Env) : M Avatar unit :=
  try_catch
    (setAudioModeAsync env ;;;
     let greetingText :=
       "Hello " ++ userName props ++ "! Looking forward to working together!" in
     gender <- gets avatarGender ;;
     let voiceId := greetingVoice gender in
     response <- fetch (synthesisRequest (apiKey env) voiceId greetingText) env ;;
     if negb (ok response)
     then throw ("API request failed with status " ++ decimal (status response))
     else
       audioBuffer <- readArrayBuffer response ;;
       let fileUri := cacheDirectory env ++ "avatar_greeting.mp3" in
       writeAsStringAsync fileUri audioBuffer env ;;;
       sound <- createAsync fileUri env ;;
       log (SetOnPlaybackStatusUpdate sound) ;;;
       modify (fun a => with_greetingSounds (sound :: greetingSounds a) a))
    (fun error =>
       log (ConsoleError error) ;;;
       callGreetingComplete props).

(** The callback that [playGreeting] registers on its sound. *)
Definition onPlaybackStatusUpdate
  (props : Props) (sound : Sound) (st : AVPlaybackStatus) : M Avatar unit :=
  registered <- gets greetingSounds ;;
  if existsb (Nat.eqb sound) registered && isLoaded st && didJustFinish st
  then log (Unload sound) ;;; callGreetingComplete props
  else ret tt.

(** The effect on [accepted] and [webViewRef.current]; [attached] tells
    whether the ref holds the web view.  The effect of a render reads the
    state committed by the effects that ran before it. *)
Definition acceptedEffect (props : Props) (attached : bool) (env : Env)
  : M Avatar unit :=
  played <- gets hasPlayedGreeting ;;
  if accepted props && attached && negb played then
    setHasPlayedGreeting true ;;;
    log (PostMessage switchToTalking) ;;;
    modify (exec (playGreeting props env))
  else ret tt.

(** [onMessage] of the web view: events of the rendering surface. *)
Definition onMessage (message : string) : M Avatar unit :=
  (if includes message "Failed" || includes message "Fatal"
   then setError (Some message) else ret tt) ;;;
  (if includes message "Avatar loaded" || includes message "Scene ready"
   then setError None else ret tt).
Arguments onMessage message a : simpl never.

(** [onError] of the web view. *)
Definition onError : M Avatar unit :=
  setError (Some "Failed to load 3D viewer") ;;; modify (with_loading false).

(** What can happen to a mounted avatar view. *)
Inductive Input : Type :=
| Render (props : Props) (attached : bool) (env : Env)
| Message (raw : string)
| WebViewLoaded
| WebViewError
| GenderDetected (g : Gender)
| PlaybackStatus (props : Props) (sound : Sound) (st : AVPlaybackStatus).

Definition handle (i : Input) : M Avatar unit :=
  match i with
  | Render props attached env => acceptedEffect props attached env
  | Message raw => onMessage raw
  | WebViewLoaded => modify (with_loading false)
  | WebViewError => onError
  | GenderDetected g => modify (with_avatarGender g)
  | PlaybackStatus props sound st => onPlaybackStatusUpdate props sound st
  end.

Definition step (a : Avatar) (i : Input) : Avatar := exec (handle i) a.

Definition run (inputs : list Input) (a : Avatar) : Avatar :=
  fold_left step inputs a.

(** The command and the greeting went out at most once, and not at all
    while the flag is down. *)
Definition greetedOnce (a : Avatar) : Prop :=
  count isPost (history a) <= 1
  /\ count isGreetingStart (history a) <= 1
  /\ (hasPlayedGreeting a = false ->
      count isPost (history a) = 0 /\ count isGreetingStart (history a) = 0).

(** The markers of the surface events. *)
Definition failureMarked (message : string) : bool :=
  includes message "Failed" || includes message "Fatal".

Definition successMarked (message : string) : bool :=
  includes message "Avatar loaded" || includes message "Scene ready".

(** The [action] member of a parsed message that is not [null]. *)
Definition actionOf (message : json) : option json :=
  match message with
  | JObject members => lookup "action" members
  | _ => None
  end.

(** *** The rendering surface: the [message] listener of the page *)

#[export] Instance Surface_Traced : Traced (list Event) :=
  {| trace := fun evs => evs;
     record := fun e evs => (evs ++ [e])%list |}.

Definition talkingAnimationUrl : string :=
  "https://cdn.jsdelivr.net/gh/readyplayerme/animation-library@master/masculine/glb/expression/M_Talking_Variations_001.glb".

Section Surface.

(** [JSON.parse]: [None] when the text is not JSON (a SyntaxError). *)
Variable JSON_parse : string -> option json.

Definition parse (data : string) : M (list Event) json :=
  match JSON_parse data with
  | Some value => ret value
  | None => throw "SyntaxError: JSON Parse error"
  end.

(** The commands that [switchToTalking] gives to the scene. *)
Definition talkingCommands : list Event :=
  [CameraPosition 0 (12 # 10) 2; ControlsTarget 0 (8 # 10) 0; ControlsUpdate;
   LoadAnimation talkingAnimationUrl].

Definition windowMessageListener (data : string) : M (list Event) unit :=
  try_catch
    (message <- parse data ;;
     action <- getProp message "action" ;;
     if strictEqString action "switchToTalking" then
       log (CameraPosition 0 (12 # 10) 2) ;;;
       log (ControlsTarget 0 (8 # 10) 0) ;;;
       log ControlsUpdate ;;;
       log (LoadAnimation talkingAnimationUrl)
     else ret tt)
    (fun e => log (ConsoleError ("Message parsing error: " ++ e))).

End Surface.

End Avatar3D.

(** ** Environments of the scenarios *)

Module Scenarios.
Import Platform.

(** The provider answers and the clip lasts [ms] milliseconds. *)
Definition plays (ms : option Q) : Env :=
  {| apiKey := "key"; cacheDirectory := "cache/"; audioMode_ok := true;
     fetch_reply := Some {| ok := true; status := 200; arrayBuffer := Some [] |};
     write_ok := true; unload_ok := true; create_ok := true;
     status_reply :=
       Some {| isLoaded := true; durationMillis := ms;
               didJustFinish := false |} |}.

(** The provider answers HTTP 500. *)
Definition http500 : Env :=
  {| apiKey := "key"; cacheDirectory := "cache/"; audioMode_ok := true;
     fetch_reply := Some {| ok := false; status := 500; arrayBuffer := None |};
     write_ok := true; unload_ok := true; create_ok := true;
     status_reply := None |}.

(** The status that ends a playback. *)
Definition justFinished : AVPlaybackStatus :=
  {| isLoaded := true; durationMillis := None; didJustFinish := true |}.

(** A parser that knows one text only. *)
Definition parseNullOnly (data : string) : option Js.json :=
  if String.eqb data "null" then Some Js.JNull else None.

End Scenarios.

(** ** Shape of the chunk list and timing of a presenter run *)

Module ChunkerShape.
Import JsString Chunker.

(** The first word of a line. *)
Definition firstWord (line : string) : string := hd "" (words line).

(** No line of [lines] could have taken the first word of the line that
    follows it: with that word and a space it would be longer than the
    threshold. *)
Fixpoint tight (lines : list string) : Prop :=
  match lines with
  | line :: (next :: _) as rest =>
      threshold < String.length (line ++ " " ++ firstWord next) /\ tight rest
  | _ => True
  end.

(** The last of [lines], if there is one, cannot take the word [w]. *)
Definition full (lines : list string) (w : string) : Prop :=
  match lines with
  | [] => True
  | _ => threshold < String.length (last lines "" ++ " " ++ w)
  end.

(** Loop invariant of [splitIntoChunks] for [tight]. *)
Definition tight_inv (st : acc) : Prop :=
  tight (fst st) /\ full (fst st) (firstWord (snd st)).

(** Loop invariant of [splitIntoChunks]: closed chunks are not empty. *)
Definition nonempty_inv (st : acc) : Prop :=
  Forall (fun c => c <> "") (fst st).

(** Something was kept: a chunk is closed or the running line is not
    empty. *)
Definition started (st : acc) : Prop := fst st <> [] \/ snd st <> "".

End ChunkerShape.

Module PresenterTiming.
Import Presenter.



(** The texts that a run puts on the display, in order. *)
Fixpoint displays (run : list Action) : list string :=
  match run with
  | [] => []
  | Display text :: rest => text :: displays rest
  | _ :: rest => displays rest
  end.


End PresenterTiming.

(** ** What the training screen can have on display *)

Module TrainingDisplay.
Import JsString Presenter Platform Training.

(** A text that is a chunk of the narration, or the empty text. *)
Definition chunkOrEmpty (chunks : list string) (text : string) : Prop :=
  text = "" \/ In text chunks.

Definition showsOnly (chunks : list string) (a : Action) : Prop :=
  match a with
  | Display text => chunkOrEmpty chunks text
  | _ => True
  end.

Definition displaysOnly (chunks : list string) (e : Event) : Prop :=
  match e with
  | SetCurrentSubtitle text => chunkOrEmpty chunks text
  | _ => True
  end.

(** The display, the parked presenter runs and the display updates of the
    history only know the chunks and the empty text. *)
Definition displayOk (chunks : list string) (h : Host) : Prop :=
  chunkOrEmpty chunks (currentSubtitle h)
  /\ Forall (Forall (showsOnly chunks)) (tasks h)
  /\ Forall (displaysOnly chunks) (history h).

End TrainingDisplay.

(** ** Gender detection and the messages of the page (Avatar3D.tsx) *)

Module AvatarGender.
Import Js Platform Avatar3D.
Local Open Scope js_scope.




(** The messages that the script of the page posts to the host. *)
Inductive PageMessage : Type :=
| StartingInitialization
| AvatarLoaded
| AnimationLoaded
| AnimationSkipped
| AvatarError (error : string)
| SceneReady
| FatalError (message : string).

(** The string that is posted. *)
Definition posted (m : PageMessage) : string :=
  match m with
  | StartingInitialization => "Starting initialization"
  | AvatarLoaded => "Avatar loaded"
  | AnimationLoaded => "Animation loaded"
  | AnimationSkipped => "Animation skipped - avatar still interactive!"
  | AvatarError error => "Avatar error: " ++ error
  | SceneReady => "Scene ready"
  | FatalError message => "Fatal error: " ++ message
  end.

End AvatarGender.

(** ** The avatar page (pages/avatar.tsx) *)

Module AvatarPage.
Import Js Platform.

(** State of the page: its two flags, the avatar view it renders, and how
    often it has called its props [onShowTraining] and [clearAvatar]. *)
Record Page : Type := {
  userName : string;
  accepted : bool;
  greetingComplete : bool;
  view : Avatar3D.Avatar;
  trainingRequests : nat;
  clearRequests : nat
}.

Definition initial (name : string) : Page :=
  {| userName := name; accepted := false; greetingComplete := false;
     view := Avatar3D.initial; trainingRequests := 0; clearRequests := 0 |}.

Definition with_accepted (v : bool) (p : Page) : Page :=
  {| userName := userName p; accepted := v;
     greetingComplete := greetingComplete p; view := view p;
     trainingRequests := trainingRequests p;
     clearRequests := clearRequests p |}.

Definition with_greetingComplete (v : bool) (p : Page) : Page :=
  {| userName := userName p; accepted := accepted p; greetingComplete := v;
     view := view p; trainingRequests := trainingRequests p;
     clearRequests := clearRequests p |}.

Definition with_view (v : Avatar3D.Avatar) (p : Page) : Page :=
  {| userName := userName p; accepted := accepted p;
     greetingComplete := greetingComplete p; view := v;
     trainingRequests := trainingRequests p;
     clearRequests := clearRequests p |}.

Definition handleAccept (p : Page) : Page := with_accepted true p.

Definition handleGreetingComplete (p : Page) : Page :=
  with_greetingComplete true p.

(** [handleContinue]: [onShowTraining()]. *)
Definition handleContinue (p : Page) : Page :=
  {| userName := userName p; accepted := accepted p;
     greetingComplete := greetingComplete p; view := view p;
     trainingRequests := S (trainingRequests p);
     clearRequests := clearRequests p |}.

(** [clearAvatar()] of the "Change Avatar" button. *)
Definition pressChangeAvatar (p : Page) : Page :=
  {| userName := userName p; accepted := accepted p;
     greetingComplete := greetingComplete p; view := view p;
     trainingRequests := trainingRequests p;
     clearRequests := S (clearRequests p) |}.

(** The outer [Pressable]: [onPress] is [handleContinue] once the greeting
    is complete and [undefined] before. *)
Definition pressScreen (p : Page) : Page :=
  if greetingComplete p then handleContinue p else p.

(** The "Accept" button is rendered while [accepted] is false. *)
Definition pressAccept (p : Page) : Page :=
  if accepted p then p else handleAccept p.

(** The props that the page gives to the avatar view. *)
Definition viewProps (p : Page) : Avatar3D.Props :=
  {| Avatar3D.accepted := accepted p;
     Avatar3D.userName := userName p;
     Avatar3D.onGreetingComplete := true |}.

(** Runs something in the avatar view; when the view called
    [onGreetingComplete] meanwhile, [handleGreetingComplete] runs. *)
Definition inView (p : Page) (i : Avatar3D.Input) : Page :=
  let before := view p in
  let after := Avatar3D.step before i in
  let p' := with_view after p in
  if (count isGreetingComplete (Avatar3D.history before)
      <? count isGreetingComplete (Avatar3D.history after))%nat
  then handleGreetingComplete p'
  else p'.

(** What can happen to the page. *)
Inductive Input : Type :=
| PressAccept
| PressScreen
| PressChangeAvatar
| Effect (attached : bool) (env : Env)
| Status (sound : Sound) (st : AVPlaybackStatus)
| Surface (raw : string)
| ViewLoaded
| ViewError
| Gender (g : Avatar3D.Gender).

Definition step (p : Page) (i : Input) : Page :=
  match i with
  | PressAccept => pressAccept p
  | PressScreen => pressScreen p
  | PressChangeAvatar => pressChangeAvatar p
  | Effect attached env =>
      inView p (Avatar3D.Render (viewProps p) attached env)
  | Status sound st =>
      inView p (Avatar3D.PlaybackStatus (viewProps p) sound st)
  | Surface raw => inView p (Avatar3D.Message raw)
  | ViewLoaded => inView p Avatar3D.WebViewLoaded
  | ViewError => inView p Avatar3D.WebViewError
  | Gender g => inView p (Avatar3D.GenderDetected g)
  end.

Definition run (inputs : list Input) (p : Page) : Page :=
  fold_left step inputs p.

(** The view only knows a greeting sound or a completed greeting once its
    flag is up. *)
Definition viewOk (a : Avatar3D.Avatar) : Prop :=
  (Avatar3D.greetingSounds a <> []
   \/ 0 < count isGreetingComplete (Avatar3D.history a)) ->
  Avatar3D.hasPlayedGreeting a = true.

(** The gate of the page: a training request needs a completed greeting,
    a completed greeting needs a call of [onGreetingComplete] by a view
    whose flag is up, and the flag needs the acceptance. *)
Definition pageOk (p : Page) : Prop :=
  viewOk (view p)
  /\ (greetingComplete p = true ->
      0 < count isGreetingComplete (Avatar3D.history (view p)))
  /\ (Avatar3D.hasPlayedGreeting (view p) = true -> accepted p = true)
  /\ (0 < trainingRequests p -> greetingComplete p = true).

End AvatarPage.

(** ** The continue prompt of the training screen *)

Module TrainingGate.
Import Js Platform Training.

Definition isContinue (e : Event) : bool :=
  match e with
  | SetStage continue => true
  | _ => false
  end.

Definition sessionOf (onFinish : FinishCallback) : nat :=
  match onFinish with
  | Resolve session => session
  end.

(** A tap on the screen: the [Pressable] with [handleContinue] is only
    rendered while the screen is mounted and in stage "continue".  Tells
    whether [onComplete] is called. *)
Definition tapCompletes (h : Host) : bool :=
  mounted h
  && match stage h with
     | continue => true
     | speaking => false
     end.

(** The [speak...] calls among the inputs. *)
Definition starts (inputs : list Input) : nat :=
  List.length
    (filter (fun i => match i with Start _ => true | _ => false end) inputs).

(** The stage only moves on for a settled promise, a promise only settles
    in a call of the completion callback, and every completion callback
    belongs to a [speak...] call that was made. *)
Definition gateOk (h : Host) : Prop :=
  count isContinue (history h) <= List.length (settled h)
  /\ List.length (settled h) <= count isFinish (history h)
  /\ (stage h = continue -> 0 < count isContinue (history h))
  /\ NoDup (settled h)
  /\ Forall (fun session => session < sessions h) (settled h)
  /\ Forall (fun entry => sessionOf (snd entry) < sessions h) (listeners h).

End TrainingGate.

(** ** The name form of the welcome screen (WelcomeScreen.tsx) *)

Module Welcome.
Import JsString.

(** The white space that [trim] strips, as far as it lies below 256: tab,
    line feed, vertical tab, form feed, carriage return, space and
    no-break space.  The other white space of JavaScript (U+1680, U+2000
    to U+200A, U+2028, U+2029, U+202F, U+205F, U+3000, U+FEFF) lies beyond
    the characters of [string]. *)
Definition isWhiteSpace (c : ascii) : bool :=
  let n := nat_of_ascii c in
  (Nat.leb 9 n && Nat.leb n 13) || Nat.eqb n 32 || Nat.eqb n 160.

Fixpoint trimStart (s : string) : string :=
  match s with
  | EmptyString => EmptyString
  | String c rest => if isWhiteSpace c then trimStart rest else s
  end.

Fixpoint trimEnd (s : string) : string :=
  match s with
  | EmptyString => EmptyString
  | String c rest =>
      match trimEnd rest with
      | EmptyString => if isWhiteSpace c then EmptyString else String c EmptyString
      | kept => String c kept
      end
  end.

(** [s.trim()]. *)
Definition trim (s : string) : string := trimEnd (trimStart s).

(** The template literal of the greeting. *)
Definition greeting (firstName : string) : string :=
  "Nice to meet you " ++ firstName
  ++ ". I'm going to take you through the process of setting up your first digital sales agent. This process is quick and really fun! You will be able to customize your agent, train it on your business or brand, and send it off to find and close deals for you. Let's start with customizing your agent, your agent should be an extension of your business, much like how you birthed your business, in this case your business births the agent, let's begin.".

(** The greeting after the sentence that carries the name. *)
Definition greetingTail : string :=
  "I'm going to take you through the process of setting up your first digital sales agent. This process is quick and really fun! You will be able to customize your agent, train it on your business or brand, and send it off to find and close deals for you. Let's start with customizing your agent, your agent should be an extension of your business, much like how you birthed your business, in this case your business births the agent, let's begin.".

(** What [handleSubmitName] works out before it starts the narration. *)
Record Submission : Type := {
  firstName : string;
  greetingText : string;
  greetingChunks : list string
}.

(** [handleSubmitName], up to the start of the narration; [None] is the
    early [return].  [nameParts[0]] exists, as [split] never returns an
    empty array. *)
Definition handleSubmitName (name : string) (isProcessing : bool)
  : option Submission :=
  let trimmedName := trim name in
  if negb (truthy trimmedName) || isProcessing then None
  else
    let nameParts := words trimmedName in
    let first := hd "" nameParts in
    let text := greeting first in
    Some {| firstName := first;
            greetingText := text;
            greetingChunks := Chunker.splitIntoChunks text |}.

(** Every character of [s] is white space. *)
Fixpoint blank (s : string) : bool :=
  match s with
  | EmptyString => true
  | String c rest => isWhiteSpace c && blank rest
  end.

End Welcome.

(** ** The application shell (App.tsx) *)

Module App.
Import JsString Js.
Local Open Scope js_scope.

(** The state of [App].  [avatarId] is typed as a string, but it receives
    [message.data.avatarId] unchecked, so it holds any JSON value;
    [None] is [undefined]. *)
Record App : Type := {
  avatarId : option json;
  userName : option string;
  showWelcome : bool;
  showTraining : bool
}.

Definition initial : App :=
  {| avatarId := None; userName := None; showWelcome := true;
     showTraining := false |}.

Definition setAvatarId (v : option json) (app : App) : App :=
  {| avatarId := v; userName := userName app;
     showWelcome := showWelcome app; showTraining := showTraining app |}.

Definition setUserName (v : option string) (app : App) : App :=
  {| avatarId := avatarId app; userName := v;
     showWelcome := showWelcome app; showTraining := showTraining app |}.

Definition setShowWelcome (v : bool) (app : App) : App :=
  {| avatarId := avatarId app; userName := userName app;
     showWelcome := v; showTraining := showTraining app |}.

Definition setShowTraining (v : bool) (app : App) : App :=
  {| avatarId := avatarId app; userName := userName app;
     showWelcome := showWelcome app; showTraining := v |}.

Definition handleWelcomeComplete (firstName : string) (app : App) : App :=
  setShowWelcome false (setUserName (Some firstName) app).

Definition handleShowTraining (app : App) : App := setShowTraining true app.

Definition handleTrainingComplete (app : App) : App :=
  setShowWelcome true
    (setUserName None (setAvatarId None (setShowTraining false app))).

(** The [clearAvatar] prop of the avatar page. *)
Definition clearAvatar (app : App) : App :=
  setAvatarId (Some (JString "")) app.

(** Truthiness of a JSON value. *)
Definition truthyJson (v : json) : bool :=
  match v with
  | JNull => false
  | JBool b => b
  | JNumber q => negb (Qeq_bool q 0)
  | JString s => truthy s
  | JArray _ | JObject _ => true
  end.

Definition truthyValue (v : option json) : bool :=
  match v with
  | Some value => truthyJson value
  | None => false
  end.

(** What [App] renders. *)
Inductive Screen : Type :=
| TrainingScreen
| WelcomeScreen
| AvatarPage (avatarId : json) (userName : string)
| AvatarCreator.

Definition screen (app : App) : Screen :=
  if showTraining app then TrainingScreen
  else if showWelcome app then WelcomeScreen
  else
    match avatarId app with
    | Some id =>
        if truthyJson id then
          AvatarPage id
            match userName app with
            | Some name => if truthy name then name else "there"
            | None => "there"
            end
        else AvatarCreator
    | None => AvatarCreator
    end.

(** While the welcome screen is not shown, the application knows a first
    name. *)
Definition named (app : App) : Prop :=
  showWelcome app = false ->
  exists name,
    userName app = Some name /\ name <> "" /\ has_char space name = false.

Definition RPM_TARGET : string := "readyplayerme".

(** The functions of [supportedEvents]. *)
Inductive Handler : Type :=
| onAvatarExported
| onUserSet
| onUserAuthorized
| onAssetUnlocked
| onUserUpdated
| onUserLoggedOut.

(** The own properties of [supportedEvents]. *)
Definition supportedEvents (key : string) : option Handler :=
  if String.eqb key "v1.avatar.exported" then Some onAvatarExported
  else if String.eqb key "v1.user.set" then Some onUserSet
  else if String.eqb key "v1.user.authorized" then Some onUserAuthorized
  else if String.eqb key "v1.asset.unlock" then Some onAssetUnlocked
  else if String.eqb key "v1.user.updated" then Some onUserUpdated
  else if String.eqb key "v1.user.logout" then Some onUserLoggedOut
  else None.

Section Creator.

(** [JSON.parse]: [None] when the text is not JSON (a SyntaxError). *)
Variable JSON_parse : string -> option json.

(** The string conversion of a JSON value that is not a string, as a
    property key and in a template literal; [None] when it throws (an
    object whose own [toString] and [valueOf] are not functions). *)
Variable ToString : json -> option string.

(** [supportedEvents[key]?.(event)] for a [key] that is not an own
    property: [None] when nothing is inherited under that name or the
    inherited function returns, [Some e] when the call throws [e]. *)
Variable inheritedCall : string -> json -> option string.

Definition parse (data : string) : M App json :=
  match JSON_parse data with
  | Some value => ret value
  | None => throw "SyntaxError: JSON Parse error"
  end.

(** [message.data?.key]. *)
Definition optionalData (message : json) (key : string)
  : M App (option json) :=
  data <- getProp message "data" ;;
  match data with
  | None | Some JNull => ret None
  | Some d => getProp d key
  end.

(** The conversion of [`${v}`]. *)
Definition template (v : option json) : M App unit :=
  match v with
  | None | Some (JString _) => ret tt
  | Some value =>
      match ToString value with
      | Some _ => ret tt
      | None => throw "TypeError: Cannot convert object to primitive value"
      end
  end.

Definition call (handler : Handler) (message : json) : M App unit :=
  match handler with
  | onAvatarExported =>
      data <- getProp message "data" ;;
      match data with
      | None => throw "TypeError: Cannot read properties of undefined"
      | Some d =>
          id <- getProp d "avatarId" ;;
          modify (setAvatarId id)
      end
  | onAssetUnlocked => v <- optionalData message "assetId" ;; template v
  | onUserAuthorized | onUserSet | onUserUpdated =>
      v <- optionalData message "id" ;; template v
  | onUserLoggedOut => ret tt
  end.

(** The key that [supportedEvents[eventName]] reads. *)
Definition propertyKey (eventName : json) : M App string :=
  match eventName with
  | JString s => ret s
  | value =>
      match ToString value with
      | Some s => ret s
      | None => throw "TypeError: Cannot convert object to primitive value"
      end
  end.

(** [onMessageReceived]; nothing catches what it throws. *)
Definition onMessageReceived (data : string) : M App unit :=
  event <- parse data ;;
  source <- match event with
            | JNull => ret None
            | _ => getProp event "source"
            end ;;
  if negb (strictEqString source RPM_TARGET) then ret tt
  else
    eventName <- getProp event "eventName" ;;
    match eventName with
    | None => ret tt
    | Some name =>
        if negb (truthyJson name) then ret tt
        else
          key <- propertyKey name ;;
          match supportedEvents key with
          | Some handler => call handler event
          | None =>
              match inheritedCall key event with
              | None => ret tt
              | Some e => throw e
              end
          end
    end.

(** What can happen to the application.  [WelcomeCompleted name p]: the
    name form was submitted with [name], and the submission, if it did not
    return early, ran to its [onComplete(firstName)]. *)
Inductive Input : Type :=
| WelcomeCompleted (name : string) (isProcessing : bool)
| ShowTraining
| TrainingComplete
| ClearAvatar
| CreatorMessage (data : string).

Definition step (app : App) (i : Input) : App :=
  match i with
  | WelcomeCompleted name isProcessing =>
      match Welcome.handleSubmitName name isProcessing with
      | Some s => handleWelcomeComplete (Welcome.firstName s) app
      | None => app
      end
  | ShowTraining => handleShowTraining app
  | TrainingComplete => handleTrainingComplete app
  | ClearAvatar => clearAvatar app
  | CreatorMessage data => exec (onMessageReceived data) app
  end.

Definition run (inputs : list Input) (app : App) : App :=
  fold_left step inputs app.

End Creator.

End App.

(** * Properties *)

(** ** Reasoning rules for computations *)

Module JsFacts.
Import Js.
Local Open Scope js_scope.

Section Rules.
Context {S : Type}.

Lemma triple_ret {A} (a : A) (Q : A -> S -> Prop) (E : S -> Prop) :
  triple (Q a) (ret a) Q E.
Proof. intros s H. exact H. Qed.

Lemma triple_throw {A} (e : string) (Q : A -> S -> Prop) (E : S -> Prop) :
  triple E (throw e) Q E.
Proof. intros s H. exact H. Qed.

Lemma triple_bind {A B} (P : S -> Prop) (R : A -> S -> Prop)
  (Q : B -> S -> Prop) (E : S -> Prop) (c : M S A) (k : A -> M S B) :
  triple P c R E -> (forall a, triple (R a) (k a) Q E) ->
  triple P (bind c k) Q E.
Proof.
  intros Hc Hk s HP. unfold bind. specialize (Hc s HP).
  destruct (c s) as [[a|e] s']; [exact (Hk a s' Hc) | exact Hc].
Qed.

Lemma triple_try_catch (P : S -> Prop) (Q : unit -> S -> Prop)
  (E' E : S -> Prop) (body : M S unit) (handler : string -> M S unit) :
  triple P body Q E' -> (forall e, triple E' (handler e) Q E) ->
  triple P (try_catch body handler) Q E.
Proof.
  intros Hb Hh s HP. unfold try_catch. specialize (Hb s HP).
  destruct (body s) as [[a|e] s']; [exact Hb | exact (Hh e s' Hb)].
Qed.

Lemma triple_weaken {A} (P P' : S -> Prop) (Q Q' : A -> S -> Prop)
  (E E' : S -> Prop) (c : M S A) :
  triple P' c Q' E' ->
  (forall s, P s -> P' s) -> (forall a s, Q' a s -> Q a s) ->
  (forall s, E' s -> E s) ->
  triple P c Q E.
Proof.
  intros Hc HP HQ HE s Hs. specialize (Hc s (HP s Hs)).
  destruct (c s) as [[a|e] s']; auto.
Qed.

Lemma triple_gets {A} (f : S -> A) (P : S -> Prop) (E : S -> Prop) :
  triple P (gets f) (fun a s => P s /\ a = f s) E.
Proof. intros s H. split; [exact H | reflexivity]. Qed.

Lemma triple_modify (f : S -> S) (P Q : S -> Prop) (E : S -> Prop) :
  (forall s, P s -> Q (f s)) -> triple P (modify f) (fun _ => Q) E.
Proof. intros H s HP. exact (H s HP). Qed.

(** A computation that keeps [I] keeps it on both exits. *)
Lemma triple_stable {A} (I : S -> Prop) (c : M S A) :
  stable I c -> triple I c (fun _ => I) I.
Proof.
  intros H s Hs. specialize (H s Hs). unfold exec in H.
  destruct (c s) as [[a|e] s']; exact H.
Qed.

Lemma stable_triple {A} (I : S -> Prop) (c : M S A) :
  triple I c (fun _ => I) I -> stable I c.
Proof.
  intros H s Hs. specialize (H s Hs). unfold exec.
  destruct (c s) as [[a|e] s']; exact H.
Qed.

Lemma stable_ret {A} (I : S -> Prop) (a : A) : stable I (ret a).
Proof. intros s H. exact H. Qed.

Lemma stable_throw {A} (I : S -> Prop) (e : string) :
  stable I (@throw S A e).
Proof. intros s H. exact H. Qed.

Lemma stable_gets {A} (I : S -> Prop) (f : S -> A) : stable I (gets f).
Proof. intros s H. exact H. Qed.

Lemma stable_modify (I : S -> Prop) (f : S -> S) :
  (forall s, I s -> I (f s)) -> stable I (modify f).
Proof. intros H s Hs. exact (H s Hs). Qed.

Lemma stable_bind {A B} (I : S -> Prop) (c : M S A) (k : A -> M S B) :
  stable I c -> (forall a, stable I (k a)) -> stable I (bind c k).
Proof.
  intros Hc Hk s Hs. specialize (Hc s Hs). unfold exec, bind in *.
  destruct (c s) as [[a|e] s']; [exact (Hk a s' Hc) | exact Hc].
Qed.

Lemma stable_try_catch (I : S -> Prop) (body : M S unit)
  (handler : string -> M S unit) :
  stable I body -> (forall e, stable I (handler e)) ->
  stable I (try_catch body handler).
Proof.
  intros Hb Hh s Hs. specialize (Hb s Hs). unfold exec, try_catch in *.
  destruct (body s) as [[a|e] s']; [exact Hb | exact (Hh e s' Hb)].
Qed.

Lemma stable_notAwaited {A} (I : S -> Prop) (c : M S A) :
  stable I c -> stable I (notAwaited c).
Proof. intros Hc s Hs. exact (Hc s Hs). Qed.

End Rules.

End JsFacts.


(** ** Strings *)

Module JsStringFacts.
Import JsString.

Lemma append_assoc (a b c : string) : (a ++ b) ++ c = a ++ (b ++ c).
Proof. induction a as [|x a IH]; simpl; [reflexivity | now rewrite IH]. Qed.

Lemma append_empty_r (a : string) : a ++ "" = a.
Proof. induction a as [|x a IH]; simpl; [reflexivity | now rewrite IH]. Qed.

Lemma length_append (a b : string) :
  String.length (a ++ b) = String.length a + String.length b.
Proof. induction a as [|x a IH]; simpl; [reflexivity | now rewrite IH]. Qed.

Lemma truthy_false (s : string) : truthy s = false <-> s = "".
Proof. destruct s; simpl; split; congruence. Qed.

Lemma truthy_true (s : string) : truthy s = true <-> s <> "".
Proof. destruct s; simpl; split; congruence. Qed.

Lemma split_not_nil (c : ascii) (s : string) : split c s <> [].
Proof.
  induction s as [|a s IH]; simpl; [discriminate|].
  destruct (Ascii.eqb a c); [discriminate|].
  destruct (split c s); discriminate.
Qed.

Lemma wordCount_pos (s : string) : 1 <= wordCount s.
Proof.
  unfold wordCount, words.
  pose proof (split_not_nil space s) as H.
  destruct (split space s); [congruence | simpl; lia].
Qed.

Lemma concat_cons (sep x : string) (l : list string) :
  l <> [] -> String.concat sep (x :: l) = x ++ sep ++ String.concat sep l.
Proof. destruct l; [congruence | reflexivity]. Qed.

(** Joining the pieces of a split with the separator gives the string
    back. *)
Lemma concat_split (c : ascii) (s : string) :
  String.concat (String c "") (split c s) = s.
Proof.
  induction s as [|a s IH]; simpl; [reflexivity|].
  pose proof (split_not_nil c s) as Hnil.
  destruct (Ascii.eqb_spec a c) as [->|Hne].
  - rewrite concat_cons by assumption. simpl. now rewrite IH.
  - destruct (split c s) as [|w ws]; [congruence|].
    destruct ws as [|w' ws].
    + simpl in *. now rewrite IH.
    + rewrite concat_cons in * by discriminate.
      simpl. simpl in IH. now rewrite IH.
Qed.

(** [String.prefix] and [includes] say what they should. *)
Lemma prefix_spec (needle hay : string) :
  String.prefix needle hay = true <-> exists post, hay = needle ++ post.
Proof.
  revert hay. induction needle as [|a needle IH]; intros hay.
  - split; [intros _; now exists hay | intros _; now destruct hay].
  - destruct hay as [|b hay]; simpl.
    + split; [discriminate | intros [post H]; discriminate].
    + destruct (ascii_dec a b) as [->|Hne].
      * rewrite IH. split; intros [post H]; exists post.
        -- simpl. now rewrite H.
        -- simpl in H. now injection H.
      * split; [discriminate|]. intros [post H]. simpl in H.
        injection H as H _. congruence.
Qed.

Lemma includes_spec (hay needle : string) :
  includes hay needle = true
  <-> exists pre post, hay = pre ++ needle ++ post.
Proof.
  induction hay as [|a hay IH]; cbn [includes].
  - rewrite orb_false_r, prefix_spec. split.
    + intros [post H]. exists "", post. exact H.
    + intros (pre & post & H). destruct pre; [now exists post|discriminate].
  - rewrite orb_true_iff, IH, prefix_spec. split.
    + intros [[post H]|(pre & post & H)].
      * exists "", post. exact H.
      * exists (String a pre), post. simpl. now rewrite H.
    + intros (pre & post & H). destruct pre as [|b pre].
      * left. now exists post.
      * right. simpl in H. injection H as _ H. now exists pre, post.
Qed.

Lemma unwords_words (s : string) : unwords (words s) = s.
Proof. apply (concat_split space). Qed.

(** No piece of a split contains the separator. *)
Lemma split_no_sep (c : ascii) (s w : string) :
  In w (split c s) -> has_char c w = false.
Proof.
  revert w. induction s as [|a s IH]; simpl; intros w Hin.
  - destruct Hin as [<-|[]]. reflexivity.
  - destruct (Ascii.eqb a c) eqn:E.
    + destruct Hin as [<-|Hin]; [reflexivity | now apply IH].
    + pose proof (split_not_nil c s) as Hnil.
      destruct (split c s) as [|w0 ws]; [congruence|].
      destruct Hin as [<-|Hin].
      * simpl. rewrite E. simpl. apply IH. now left.
      * apply IH. now right.
Qed.

(** A string without the separator is its own single piece. *)
Lemma split_without_sep (c : ascii) (w : string) :
  has_char c w = false -> split c w = [w].
Proof.
  induction w as [|a w IH]; simpl; [reflexivity|].
  intros H. apply orb_false_iff in H as [Ha Hw].
  rewrite Ha, (IH Hw). reflexivity.
Qed.

(** Joining a concatenation of two non-empty lists. *)
Lemma concat_app (sep : string) (l1 l2 : list string) :
  l1 <> [] -> l2 <> [] ->
  String.concat sep (l1 ++ l2)
  = String.concat sep l1 ++ sep ++ String.concat sep l2.
Proof.
  intros H1 H2. induction l1 as [|x l1 IH]; [congruence|].
  destruct l1 as [|y l1].
  - simpl app. now rewrite concat_cons.
  - change ((x :: y :: l1) ++ l2)%list with (x :: ((y :: l1) ++ l2))%list.
    rewrite concat_cons by discriminate.
    rewrite IH by discriminate.
    rewrite (concat_cons sep x (y :: l1)) by discriminate.
    now rewrite !append_assoc.
Qed.

(** Splitting every chunk into its words and joining all of them is
    joining the chunks. *)
Lemma unwords_flat_map_words (chunks : list string) :
  unwords (flat_map words chunks) = unwords chunks.
Proof.
  unfold unwords. induction chunks as [|c cs IH]; [reflexivity|].
  simpl flat_map. destruct cs as [|c' cs].
  - simpl. rewrite app_nil_r. apply unwords_words.
  - rewrite concat_app.
    + rewrite IH. fold (unwords (words c)). rewrite unwords_words.
      reflexivity.
    + apply split_not_nil.
    + simpl. intros H. apply app_eq_nil in H as [H _].
      now apply split_not_nil in H.
Qed.

End JsStringFacts.

(** ** SubtitleChunker *)

Module ChunkerFacts.
Import JsString JsStringFacts Chunker.

Lemma word_within_limit (text w : string) :
  In w (words text) -> within_limit text w.
Proof.
  intros Hin. destruct (le_lt_dec (String.length w) threshold) as [Hle|Hlt].
  - now left.
  - right. repeat split; trivial. now apply (split_no_sep space text).
Qed.

(** The two tests of the loop body, told apart. *)
Lemma step_cases (chunks : list string) (cur w : string) :
  step (chunks, cur) w
  = if truthy cur
    then if (threshold <? String.length (cur ++ " " ++ w))%nat
         then ((chunks ++ [cur])%list, w)
         else (chunks, cur ++ " " ++ w)
    else (chunks, w).
Proof.
  unfold step. cbv zeta. destruct (truthy cur).
  - now rewrite andb_true_r.
  - now rewrite andb_false_r.
Qed.

Lemma step_limit (text : string) (st : acc) (w : string) :
  In w (words text) -> limit_inv text st -> limit_inv text (step st w).
Proof.
  intros Hw [Hchunks Hcur]. destruct st as [chunks cur].
  rewrite step_cases. cbn [fst snd] in *.
  destruct (truthy cur) eqn:T.
  - destruct (threshold <? String.length (cur ++ " " ++ w))%nat eqn:L.
    + split; cbn [fst snd].
      * apply Forall_app. split; [assumption|].
        constructor; [|constructor].
        destruct Hcur as [->|Hc]; [discriminate T | exact Hc].
      * right. now apply word_within_limit.
    + split; cbn [fst snd]; [assumption|].
      right. left. now apply Nat.ltb_ge in L.
  - split; cbn [fst snd]; [assumption|].
    right. now apply word_within_limit.
Qed.

Lemma fold_limit (text : string) (ws : list string) :
  forall st, Forall (fun w => In w (words text)) ws ->
             limit_inv text st -> limit_inv text (fold_left step ws st).
Proof.
  induction ws as [|w ws IH]; intros st Hws Hst; simpl; [assumption|].
  inversion Hws; subst. apply IH; [assumption|]. now apply step_limit.
Qed.

Lemma flush_limit (text : string) (st : acc) :
  limit_inv text st -> Forall (within_limit text) (flush st).
Proof.
  intros [Hchunks Hcur]. destruct st as [chunks cur]. simpl in *.
  destruct (truthy cur) eqn:T; [|assumption].
  apply Forall_app. split; [assumption|]. constructor; [|constructor].
  destruct Hcur as [->|Hc]; [discriminate T | exact Hc].
Qed.

Lemma long_truthy (w : string) : threshold < String.length w -> truthy w = true.
Proof. destruct w; simpl; [unfold threshold; lia | reflexivity]. Qed.

Lemma step_kept_old (st : acc) (w w' : string) :
  threshold < String.length w -> kept st w -> kept (step st w') w.
Proof.
  intros Hlong Hk. destruct st as [chunks cur]. rewrite step_cases.
  unfold kept in *. cbn [fst snd] in *. destruct Hk as [Hin|Heq].
  - destruct (truthy cur); [destruct (_ <? _)%nat|];
      cbn [fst snd]; auto using in_or_app.
  - subst cur. rewrite (long_truthy _ Hlong).
    assert ((threshold <? String.length (w ++ " " ++ w'))%nat = true) as ->.
    { apply Nat.ltb_lt. rewrite length_append. lia. }
    cbn [fst snd]. left. apply in_or_app. right. now left.
Qed.

Lemma step_kept_new (st : acc) (w : string) :
  threshold < String.length w -> kept (step st w) w.
Proof.
  intros Hlong. destruct st as [chunks cur]. rewrite step_cases.
  unfold kept. destruct (truthy cur).
  - assert ((threshold <? String.length (cur ++ " " ++ w))%nat = true) as ->.
    { apply Nat.ltb_lt. rewrite !length_append. lia. }
    cbn [fst snd]. now right.
  - cbn [fst snd]. now right.
Qed.

Lemma fold_kept (ws : list string) (w : string) :
  threshold < String.length w ->
  forall st, kept st w \/ In w ws -> kept (fold_left step ws st) w.
Proof.
  intros Hlong. induction ws as [|w' ws IH]; intros st H; simpl.
  - destruct H as [H|[]]. exact H.
  - apply IH. destruct H as [H|[<-|H]].
    + left. now apply step_kept_old.
    + left. now apply step_kept_new.
    + now right.
Qed.

Lemma flush_kept (st : acc) (w : string) :
  threshold < String.length w -> kept st w -> In w (flush st).
Proof.
  intros Hlong [Hin|Heq]; destruct st as [chunks cur]; simpl in *.
  - destruct (truthy cur); auto using in_or_app.
  - subst cur. rewrite (long_truthy _ Hlong). apply in_or_app. right. now left.
Qed.

(** Merging two neighbours with one space does not change the joined
    text. *)
Lemma unwords_merge (l r : list string) (a b : string) :
  unwords (l ++ (a ++ " " ++ b) :: r) = unwords (l ++ a :: b :: r).
Proof.
  unfold unwords. induction l as [|x l IH].
  - simpl app. destruct r as [|y r]; [reflexivity|].
    rewrite !concat_cons by discriminate.
    now rewrite !append_assoc.
  - change ((x :: l) ++ ?t)%list with (x :: (l ++ t))%list.
    rewrite !concat_cons by (destruct l; discriminate).
    now rewrite IH.
Qed.

Lemma append_not_empty (a b : string) : a <> "" -> a ++ b <> "".
Proof. destruct a; [congruence | discriminate]. Qed.

(** The loop invariant of the reconstruction, once the running line is
    not empty: the closed chunks, the running line and the words still to
    come join to the same text. *)
Lemma fold_unwords (ws : list string) :
  forall chunks cur,
    Forall (fun w => w <> "") ws -> cur <> "" ->
    let st := fold_left step ws (chunks, cur) in
    snd st <> ""
    /\ unwords (fst st ++ [snd st]) = unwords (chunks ++ cur :: ws).
Proof.
  induction ws as [|w ws IH]; intros chunks cur Hws Hcur; cbn [fold_left].
  - split; [assumption | reflexivity].
  - inversion Hws as [|? ? Hw Hws']; subst.
    apply truthy_true in Hcur as T. rewrite step_cases, T.
    destruct (threshold <? String.length (cur ++ " " ++ w))%nat.
    + destruct (IH (chunks ++ [cur])%list w Hws' Hw) as [Hne Heq].
      split; [exact Hne|]. rewrite Heq, <- app_assoc. reflexivity.
    + assert (cur ++ " " ++ w <> "") as Hne'
        by now apply append_not_empty.
      destruct (IH chunks (cur ++ " " ++ w) Hws' Hne') as [Hne Heq].
      split; [exact Hne|]. rewrite Heq. apply unwords_merge.
Qed.

Lemma reconstructs_well_spaced (text : string) :
  well_spaced text -> reconstructs text.
Proof.
  unfold well_spaced, reconstructs, splitIntoChunks. intros Hws.
  rewrite unwords_flat_map_words.
  pose proof (split_not_nil space text) as Hnil. fold (words text) in Hnil.
  rewrite <- (unwords_words text) at 2.
  destruct (words text) as [|w ws]; [congruence|].
  inversion Hws as [|? ? Hw Hws']; subst.
  cbn [fold_left]. rewrite step_cases. cbn [truthy].
  destruct (fold_unwords ws [] w Hws' Hw) as [Hne Heq].
  destruct (fold_left step ws ([], w)) as [chunks cur]. cbn [fst snd flush] in *.
  apply truthy_true in Hne. rewrite Hne. exact Heq.
Qed.

(** C2, as the code has it.  For every text, every chunk is at most 50
    characters long or is one whole word of the text that is itself longer
    than 50 characters; every word longer than 50 characters is a chunk of
    its own; and when the text is empty or has no leading, trailing or
    doubled space, the words of the chunks, joined by single spaces, are
    the text. *)
Theorem splitIntoChunks_chunks (text : string) :
  Forall (within_limit text) (splitIntoChunks text)
  /\ (forall w, In w (words text) -> threshold < String.length w ->
                In w (splitIntoChunks text))
  /\ (text = "" \/ well_spaced text -> reconstructs text).
Proof.
  split; [|split].
  - apply flush_limit, fold_limit.
    + apply Forall_forall. auto.
    + split; cbn [fst snd]; [constructor | now left].
  - intros w Hin Hlong. apply flush_kept; [assumption|].
    apply fold_kept; [assumption | now right].
  - intros [->|Hws]; [reflexivity | now apply reconstructs_well_spaced].
Qed.

Lemma splitIntoChunks_chunks_witness :
  well_spaced "Hello there friend" /\ reconstructs "Hello there friend".
Proof.
  assert (well_spaced "Hello there friend") as Hws
    by (unfold well_spaced; simpl; repeat constructor; discriminate).
  split; [exact Hws|].
  apply (proj2 (proj2 (splitIntoChunks_chunks "Hello there friend"))).
  right. exact Hws.
Defined.

(** C2, as the specification has it, fails on a text that starts with a
    space: the empty first word is dropped. *)
Lemma splitIntoChunks_drops_leading_space :
  splitIntoChunks " a" = ["a"] /\ ~ reconstructs " a".
Proof. split; [reflexivity | discriminate]. Qed.

End ChunkerFacts.

(** ** SynchronizedSubtitlePresenter *)

Module PresenterFacts.
Import JsString JsStringFacts Presenter.

(** From index [length pre] on, the loop produces the schedule of the
    chunks that are left. *)
Lemma loop_schedule (m : Q) (post : list string) :
  forall pre,
    loop (pre ++ post) m (List.length post) (List.length pre)
    = schedule m post.
Proof.
  induction post as [|c rest IH]; intros pre; [reflexivity|].
  assert (loop (pre ++ c :: rest) m (List.length rest) (S (List.length pre))
          = schedule m rest) as Hrec.
  { specialize (IH (pre ++ [c])%list).
    rewrite <- app_assoc, length_app, Nat.add_1_r in IH. exact IH. }
  cbn [List.length loop]. rewrite Hrec.
  assert ((List.length pre <? List.length (pre ++ c :: rest))%nat = true) as ->.
  { apply Nat.ltb_lt. rewrite length_app. simpl. lia. }
  rewrite app_nth2, Nat.sub_diag by lia. cbn [nth].
  destruct rest as [|c' rest].
  - assert ((List.length pre <? List.length (pre ++ [c]) - 1)%nat = false)
      as -> by (apply Nat.ltb_ge; rewrite length_app; simpl; lia).
    reflexivity.
  - assert ((List.length pre <? List.length (pre ++ c :: c' :: rest) - 1)%nat
            = true)
      as -> by (apply Nat.ltb_lt; rewrite length_app; simpl; lia).
    reflexivity.
Qed.

(** [reduce] with a running sum is the sum of the word counts. *)
Lemma fold_wordCount (chunks : list string) :
  forall a,
    fold_left (fun sum chunk => sum + wordCount chunk) chunks a
    = a + list_sum (map wordCount chunks).
Proof.
  induction chunks as [|c cs IH]; intros a; simpl; [lia|].
  rewrite IH. lia.
Qed.

Lemma totalWords_sum (chunks : list string) :
  totalWords chunks = list_sum (map wordCount chunks).
Proof. unfold totalWords. now rewrite fold_wordCount. Qed.

Lemma totalWords_pos (chunks : list string) :
  chunks <> [] -> 1 <= totalWords chunks.
Proof.
  rewrite totalWords_sum. destruct chunks as [|c cs]; [congruence|].
  intros _. simpl. pose proof (wordCount_pos c). lia.
Qed.

Lemma num_add (a b : nat) : (num (a + b) == num a + num b)%Q.
Proof. unfold num. now rewrite Nat2Z.inj_add, inject_Z_plus. Qed.

(** The display times add up to the word total times the time per word. *)
Lemma Qsum_durations (m : Q) (chunks : list string) :
  (Qsum (map (fun c => num (wordCount c) * m) chunks)
   == num (list_sum (map wordCount chunks)) * m)%Q.
Proof.
  induction chunks as [|c cs IH]; simpl.
  - unfold num. simpl. ring.
  - rewrite IH, num_add. ring.
Qed.

(** C1.  For chunks that are not empty and every duration [D], the
    presenter computes [msPerWord = D / totalWords] and runs the schedule:
    each chunk in order is shown for [wordCount * msPerWord], a gap of
    100ms with an empty display follows every chunk but the last; the
    display times add up to [D]; and for [D = 3000] and chunks of 2 and 3
    words the run is: first chunk 1200ms, gap 100ms, second chunk
    1800ms. *)
Theorem showSubtitlesWithAudio_schedule (chunks : list string) (D : Q) :
  chunks <> [] ->
  showSubtitlesWithAudio chunks D
  = SetOpacity 1 :: SetTranslateY 0
    :: schedule (D / num (totalWords chunks))%Q chunks
  /\ (Qsum (displayDurations chunks D) == D)%Q
  /\ (forall c1 c2,
        chunks = [c1; c2] -> wordCount c1 = 2 -> wordCount c2 = 3 ->
        D = 3000%Q ->
        map normalise (showSubtitlesWithAudio chunks D)
        = [SetOpacity 1; SetTranslateY 0;
           Display c1; Wait 1200; Display ""; Wait 100; Display c2; Wait 1800]).
Proof.
  intros Hne.
  assert (showSubtitlesWithAudio chunks D
          = SetOpacity 1 :: SetTranslateY 0
            :: schedule (D / num (totalWords chunks))%Q chunks) as Hrun.
  { unfold showSubtitlesWithAudio. cbv zeta. do 2 f_equal.
    apply (loop_schedule _ chunks []). }
  split; [exact Hrun | split].
  - unfold displayDurations. cbv zeta.
    rewrite Qsum_durations, <- totalWords_sum.
    apply Qmult_div_r.
    pose proof (totalWords_pos chunks Hne) as Hpos.
    unfold num. intros H0.
    assert (Z.of_nat (totalWords chunks) = 0%Z) as Hz.
    { apply (eq_sym) in H0. unfold Qeq in H0. simpl in H0. lia. }
    lia.
  - intros c1 c2 -> H1 H2 ->. rewrite Hrun.
    unfold totalWords. simpl. rewrite H1, H2. reflexivity.
Qed.

Lemma showSubtitlesWithAudio_schedule_witness :
  map normalise (showSubtitlesWithAudio ["Hello there"; "my dear friend"] 3000)
  = [SetOpacity 1; SetTranslateY 0;
     Display "Hello there"; Wait 1200; Display ""; Wait 100;
     Display "my dear friend"; Wait 1800].
Proof.
  assert (["Hello there"; "my dear friend"] <> []) as Hne by discriminate.
  apply (proj2 (proj2 (showSubtitlesWithAudio_schedule
                         ["Hello there"; "my dear friend"] 3000 Hne))
           "Hello there" "my dear friend");
    reflexivity.
Defined.

End PresenterFacts.

(** ** Histories of the audio engine *)

Module PlatformFacts.
Import Js Platform.

Lemma liveSounds_snoc (evs : list Event) (e : Event) :
  liveSounds (evs ++ [e]) = apply_event (liveSounds evs) e.
Proof. unfold liveSounds. now rewrite fold_left_app. Qed.

Lemma created_app (a b : list Event) :
  created (a ++ b) = created a + created b.
Proof.
  induction a as [|e a IH]; [reflexivity|].
  destruct e; simpl; rewrite ?IH; reflexivity.
Qed.

Lemma neutral_live (evs : list Event) (e : Event) :
  neutral e -> liveSounds (evs ++ [e]) = liveSounds evs.
Proof. intros H. rewrite liveSounds_snoc. destruct e; simpl in *; tauto. Qed.

Lemma neutral_created (evs : list Event) (e : Event) :
  neutral e -> created (evs ++ [e]) = created evs.
Proof.
  intros H. rewrite created_app. destruct e; simpl in *; try tauto; lia.
Qed.

Lemma neverTwoLive_nil : neverTwoLive [].
Proof.
  intros before after H. symmetry in H. apply app_eq_nil in H as [-> _].
  simpl. lia.
Qed.

(** One more event keeps the history good when the sounds loaded after
    it are at most one. *)
Lemma neverTwoLive_snoc (evs : list Event) (e : Event) :
  neverTwoLive evs -> List.length (liveSounds (evs ++ [e])) <= 1 ->
  neverTwoLive (evs ++ [e]).
Proof.
  intros Hevs Hlast before after Heq.
  induction after as [|x after _] using rev_ind.
  - rewrite app_nil_r in Heq. now subst before.
  - rewrite app_assoc in Heq. apply app_inj_tail in Heq as [Heq _].
    exact (Hevs before after Heq).
Qed.

Lemma remove_length_le (s : Sound) (l : list Sound) :
  List.length (List.remove Nat.eq_dec s l) <= List.length l.
Proof.
  induction l as [|x l IH]; simpl; [lia|].
  destruct (Nat.eq_dec s x); simpl; lia.
Qed.

Lemma remove_all (s : Sound) (l : list Sound) :
  (forall x, In x l -> x = s) -> List.remove Nat.eq_dec s l = [].
Proof.
  induction l as [|x l IH]; intros H; simpl; [reflexivity|].
  destruct (Nat.eq_dec s x) as [_|Hne].
  - apply IH. intros y Hy. apply H. now right.
  - exfalso. apply Hne. symmetry. apply H. now left.
Qed.

Lemma audioOk_nil (slot : option Sound) : audioOk [] slot.
Proof.
  split; [apply neverTwoLive_nil|]. split; intros s [].
Qed.

Lemma audioOk_neutral (e : Event) (evs : list Event) (slot : option Sound) :
  neutral e -> audioOk evs slot -> audioOk (evs ++ [e]) slot.
Proof.
  intros He (Hnever & Hslot & Hfresh).
  pose proof (neutral_live evs e He) as Hlive.
  pose proof (neutral_created evs e He) as Hcreated.
  split; [|split].
  - apply neverTwoLive_snoc; [assumption|]. rewrite Hlive.
    apply (Hnever evs []). now rewrite app_nil_r.
  - intros s. rewrite Hlive. apply Hslot.
  - intros s. rewrite Hlive, Hcreated. apply Hfresh.
Qed.

Lemma audioOk_unload (s : Sound) (evs : list Event) (slot : option Sound) :
  audioOk evs slot -> audioOk (evs ++ [Unload s]) slot.
Proof.
  intros (Hnever & Hslot & Hfresh).
  assert (liveSounds (evs ++ [Unload s])
          = List.remove Nat.eq_dec s (liveSounds evs)) as Hlive
    by apply liveSounds_snoc.
  assert (created (evs ++ [Unload s]) = created evs) as Hcreated
    by (rewrite created_app; simpl; lia).
  split; [|split].
  - apply neverTwoLive_snoc; [assumption|]. rewrite Hlive.
    eapply Nat.le_trans; [apply remove_length_le|].
    exact (Hnever evs [] (eq_sym (app_nil_r evs))).
  - intros x. rewrite Hlive. intros Hx. apply in_remove in Hx as [Hx _].
    now apply Hslot.
  - intros x. rewrite Hlive, Hcreated. intros Hx.
    apply in_remove in Hx as [Hx _]. now apply Hfresh.
Qed.

(** Releasing the sound of the slot leaves nothing loaded. *)
Lemma audioOk_unload_slot (s : Sound) (evs : list Event) :
  audioOk evs (Some s) -> liveSounds (evs ++ [Unload s]) = [].
Proof.
  intros (_ & Hslot & _). rewrite liveSounds_snoc. simpl.
  apply remove_all. intros x Hx. specialize (Hslot x Hx). congruence.
Qed.

(** With an empty slot nothing is loaded. *)
Lemma audioOk_empty_slot (evs : list Event) :
  audioOk evs None -> liveSounds evs = [].
Proof.
  intros (_ & Hslot & _). destruct (liveSounds evs) as [|x l]; [reflexivity|].
  specialize (Hslot x (or_introl eq_refl)). discriminate.
Qed.

(** A sound created while nothing is loaded may take the slot. *)
Lemma audioOk_create (uri : string) (evs : list Event) (slot : option Sound) :
  audioOk evs slot -> liveSounds evs = [] ->
  audioOk (evs ++ [Create (created evs) uri]) (Some (created evs)).
Proof.
  intros (Hnever & _ & _) Hnone.
  assert (liveSounds (evs ++ [Create (created evs) uri]) = [created evs])
    as Hlive by (rewrite liveSounds_snoc, Hnone; reflexivity).
  split; [|split].
  - apply neverTwoLive_snoc; [assumption|]. rewrite Hlive. simpl. lia.
  - intros s. rewrite Hlive. intros [<-|[]]. reflexivity.
  - intros s. rewrite Hlive, created_app. intros [<-|[]]. simpl. lia.
Qed.

(** A sound that was loaded and is not loaded any more was released in
    between. *)
Lemma released_between (s : Sound) (evs more : list Event) :
  In s (liveSounds evs) -> ~ In s (liveSounds (evs ++ more)) ->
  In (Unload s) more.
Proof.
  intros Hin. induction more as [|e more IH] using rev_ind; intros Hout.
  - rewrite app_nil_r in Hout. contradiction.
  - rewrite app_assoc, liveSounds_snoc in Hout. apply in_or_app.
    destruct (in_dec Nat.eq_dec s (liveSounds (evs ++ more))) as [Hstill|Hgone].
    + right. destruct e; simpl in Hout; try contradiction.
      * destruct (Nat.eq_dec sound s) as [->|Hne]; [now left|].
        exfalso. apply Hout. apply in_in_remove; [congruence | assumption].
      * exfalso. apply Hout. now right.
    + left. now apply IH.
Qed.

Lemma count_app (p : Event -> bool) (a b : list Event) :
  count p (a ++ b) = count p a + count p b.
Proof. unfold count. now rewrite filter_app, length_app. Qed.

Lemma count_one (p : Event -> bool) (e : Event) :
  count p [e] = if p e then 1 else 0.
Proof. unfold count. simpl. now destruct (p e). Qed.

Lemma count_cons (p : Event -> bool) (e : Event) (evs : list Event) :
  count p (e :: evs) = (if p e then 1 else 0) + count p evs.
Proof. unfold count. simpl. now destruct (p e). Qed.

Lemma count_zero_Forall (p : Event -> bool) (evs : list Event) :
  Forall (fun e => p e = false) evs -> count p evs = 0.
Proof.
  unfold count. induction 1 as [|e evs He _ IH]; simpl; [reflexivity|].
  now rewrite He.
Qed.

Lemma grewBy_refl (P : Event -> Prop) (evs : list Event) : grewBy P evs evs.
Proof. exists []. split; [now rewrite app_nil_r | constructor]. Qed.

Lemma grewBy_snoc (P : Event -> Prop) (start evs : list Event) (e : Event) :
  P e -> grewBy P start evs -> grewBy P start (evs ++ [e]).
Proof.
  intros He (more & -> & Hmore). exists (more ++ [e])%list. split.
  - now rewrite app_assoc.
  - apply Forall_app. split; [assumption | now constructor].
Qed.

(** Counts of a history that grew one event at a time. *)
Ltac count_events :=
  rewrite ?count_app, ?count_one; cbn; try reflexivity; try lia.

Ltac split_all := repeat match goal with |- _ /\ _ => split end.

End PlatformFacts.

(** ** PresentationSession on the training screen *)

Module TrainingFacts.
Import JsString Presenter Js JsFacts Platform PlatformFacts Training.
Local Open Scope js_scope.

(** A presenter keeps what every display update keeps. *)
Lemma stable_advance (I : Host -> Prop) (todo : list Action) :
  (forall text, stable I (setCurrentSubtitle text)) ->
  stable I (advance todo).
Proof.
  intros H. induction todo as [|a todo IH]; simpl.
  - apply stable_ret.
  - destruct a; try exact IH.
    + apply stable_bind; [apply H | intros ?; exact IH].
    + apply stable_ret.
Qed.

(** Walks a computation of the screen; [leaf] proves that one state
    update keeps the invariant, [known] closes the steps that have a rule
    of their own. *)
Ltac host_walk_with known leaf :=
  repeat first
    [ known
    | apply stable_ret
    | apply stable_throw
    | apply stable_gets
    | apply stable_bind; [|intros ?]
    | apply stable_try_catch; [|intros ?]
    | match goal with
      | |- stable _ (notAwaited _) => apply stable_notAwaited
      end
    | apply stable_modify; leaf
    | apply stable_advance; intros ?
    | match goal with
      | |- stable _ (match ?x with _ => _ end) => destruct x eqn:?
      end
    | progress unfold log, setStage, setCurrentSubtitle, afterAudio, resolve,
        callFinish, callDurationReady, setOnPlaybackStatusUpdate,
        fetch, readArrayBuffer, writeAsStringAsync, unloadAsync, createAsync,
        getStatusAsync, onPlaybackStatusUpdate, timerFired
    | progress cbv zeta ].

Ltac host_walk leaf := host_walk_with ltac:(fail) leaf.

Ltac audio_leaf :=
  let h := fresh "h" in
  let Hh := fresh "Hh" in
  intros h Hh; unfold hist_inv in *; cbn in *;
  first [ assumption | apply audioOk_neutral; [exact I | assumption] ].

(** One call of [playElevenLabsAudio] keeps the invariant of the audio
    slot. *)
Lemma playElevenLabsAudio_audioOk
  (text : string) (onFinish : FinishCallback)
  (onDurationReady : option DurationCallback) (env : Env) :
  stable (hist_inv audioOk) (playElevenLabsAudio text onFinish onDurationReady env).
Proof.
  apply stable_triple. unfold playElevenLabsAudio. cbv zeta.
  apply triple_try_catch with (E' := hist_inv audioOk).
  - eapply triple_bind; [apply triple_stable; host_walk audio_leaf|].
    intros response. destruct (negb (ok response)); [apply triple_throw|].
    eapply triple_bind; [apply triple_stable; host_walk audio_leaf|].
    intros audioBuffer.
    eapply triple_bind; [apply triple_stable; host_walk audio_leaf|].
    intros ?.
    eapply triple_bind; [apply triple_gets|]. intros previous.
    apply triple_bind
      with (R := fun _ h => hist_inv audioOk h /\ liveSounds (history h) = []).
    { destruct previous as [old|].
      - unfold unloadAsync. destruct (unload_ok env).
        + intros h [Hh Hold]. unfold hist_inv in *. cbn. split.
          * now apply audioOk_unload.
          * apply audioOk_unload_slot. now rewrite Hold.
        + intros h [Hh _]. unfold hist_inv in *. cbn.
          apply audioOk_neutral; [exact I | assumption].
      - intros h [Hh Hnone]. cbn. split; [assumption|].
        apply audioOk_empty_slot. unfold hist_inv in Hh. now rewrite Hnone. }
    intros ?.
    apply triple_bind
      with (R := fun sound h => audioOk (history h) (Some sound)).
    { unfold createAsync. destruct (create_ok env).
      - intros h [Hh Hnone]. cbn. now apply audioOk_create with (slot := soundRef h).
      - intros h [Hh _]. exact Hh. }
    intros sound.
    eapply triple_bind with (R := fun _ => hist_inv audioOk).
    { apply triple_modify. intros h Hh. exact Hh. }
    intros ?. apply triple_stable. host_walk audio_leaf.
  - intros e. apply triple_stable. host_walk audio_leaf.
Qed.


(** When the synthesis step fails, every call of the narration function
    returns, calls the completion callback once and leaves display,
    presenter runs, slot and listeners as they were. *)
Lemma playElevenLabsAudio_failed
  (text : string) (onFinish : FinishCallback)
  (onDurationReady : option DurationCallback) (env : Env) (h : Host) :
  synthesisFails env = true ->
  let r := playElevenLabsAudio text onFinish onDurationReady env h in
  fst r = Returned tt
  /\ count isFinish (history (snd r)) = S (count isFinish (history h))
  /\ count isDisplay (history (snd r)) = count isDisplay (history h)
  /\ currentSubtitle (snd r) = currentSubtitle h
  /\ tasks (snd r) = tasks h
  /\ soundRef (snd r) = soundRef h
  /\ listeners (snd r) = listeners h
  /\ (forall n, onFinish = Resolve n ->
        mem n (settled (snd r)) = true
        /\ (mem n (settled h) = false ->
            settled (snd r) = n :: settled h
            /\ (mounted h = true -> stage (snd r) = continue))).
Proof.
  unfold synthesisFails. destruct env as [key dir mode reply wr un cr st].
  destruct onFinish as [n]. cbn.
  destruct reply as [[[] code [buffer|]]|]; cbn;
    try destruct wr; cbn; try discriminate; intros _;
    unfold playElevenLabsAudio, try_catch, bind, fetch, log, modify, throw,
      callFinish, resolve, afterAudio, setStage, gets, ret; cbn;
    destruct (mem n (settled h)) eqn:Hn; cbn;
    destruct (mounted h) eqn:Hm; cbn;
    split_all; count_events.
  all: intros ? [= <-]; split; [|intros; try congruence; now split].
  all: first [exact Hn | unfold mem; cbn; now rewrite Nat.eqb_refl].
Qed.

(** The request is the first thing a call makes. *)
Lemma exec_try_catch_log {A} (e : Event) (c : M Host A)
  (k : A -> M Host unit) (handler : string -> M Host unit) (h : Host) :
  exec (try_catch (bind (bind (log e) (fun _ => c)) k) handler) h
  = exec (try_catch (bind c k) handler) (record e h).
Proof. reflexivity. Qed.

Ltac grow_leaf event_ok :=
  let h := fresh "h" in
  let Hh := fresh "Hh" in
  intros h Hh; unfold hist_inv in *; cbn;
  first [ assumption | apply grewBy_snoc; [event_ok | assumption] ].

(** Every call of the narration function makes exactly one request, the
    POST of the narrator voice, whatever happens afterwards. *)
Lemma playElevenLabsAudio_one_request
  (text : string) (onFinish : FinishCallback)
  (onDurationReady : option DurationCallback) (env : Env) (h : Host) :
  exists evs,
    history (exec (playElevenLabsAudio text onFinish onDurationReady env) h)
    = (history h
       ++ Fetch (synthesisRequest (apiKey env) narratorVoice text) :: evs)%list
    /\ Forall notFetch evs.
Proof.
  set (request := synthesisRequest (apiKey env) narratorVoice text).
  assert (hist_inv
            (fun evs _ => grewBy notFetch (history h ++ [Fetch request]) evs)
            (exec (playElevenLabsAudio text onFinish onDurationReady env) h))
    as (evs & Hevs & Hall).
  { unfold playElevenLabsAudio, fetch. cbv zeta. fold request.
    rewrite exec_try_catch_log.
    match goal with
    | |- hist_inv ?Phi (exec ?c ?s) =>
        assert (stable (hist_inv Phi) c) as Hc
          by (host_walk ltac:(grow_leaf ltac:(exact I)));
        apply (Hc s)
    end.
    apply grewBy_refl. }
  exists evs. split; [|exact Hall].
  rewrite Hevs, <- app_assoc. reflexivity.
Qed.

Ltac nonZero_event :=
  first
    [ exact I
    | match goal with
      | H : Qeq_bool ?d 0 = false |- _ => cbn; now apply Qeq_bool_neq
      end ].

Ltac positive_event :=
  first
    [ exact I
    | match goal with
      | Hnn : reportsNoNegative _, Hz : Qeq_bool ?d 0 = false |- _ =>
          unfold reportsNoNegative in Hnn;
          repeat match goal with
                 | H : ?x = Some _ |- _ => rewrite H in Hnn
                 end;
          cbn in Hnn |- *; apply Qeq_bool_neq in Hz;
          apply Qle_lteq in Hnn; destruct Hnn as [Hlt|Heq];
          [exact Hlt | exfalso; apply Hz; symmetry; exact Heq]
      end ].

Ltac host_walk_all leaf :=
  unfold handle, speakTrainingMessage, unmountCleanup, playElevenLabsAudio;
  host_walk leaf.

(** Every handler starts a presenter with a duration that is not zero. *)
Lemma handle_nonZeroStart (i : Input) :
  stable (hist_inv (fun evs _ => grewBy nonZeroStart [] evs)) (handle i).
Proof.
  destruct i as [env|sound st|task|env];
    host_walk_all ltac:(grow_leaf nonZero_event).
Qed.

(** What follows [getStatusAsync] works on the status that the audio
    engine reports. *)
Lemma stable_getStatus {A} (I : Host -> Prop) (sound : Sound) (env : Env)
  (k : AVPlaybackStatus -> M Host A) :
  stable I (log (GetStatus sound)) ->
  (forall st, status_reply env = Some st -> stable I (k st)) ->
  stable I (bind (getStatusAsync sound env) k).
Proof.
  intros Hlog Hk h Hh. specialize (Hlog h Hh).
  unfold getStatusAsync, exec, bind in *. cbn in *.
  destruct (status_reply env) as [st|]; cbn; [|exact Hlog].
  exact (Hk st eq_refl _ Hlog).
Qed.

(** With an audio engine that reports no negative duration, every handler
    starts a presenter with a positive duration only. *)
Lemma handle_positiveStart (i : Input) :
  noNegativeReport i ->
  stable (hist_inv (fun evs _ => grewBy positiveStart [] evs)) (handle i).
Proof.
  destruct i as [env|sound st|task|env]; cbn [noNegativeReport]; intros Hnn;
    unfold handle, speakTrainingMessage, unmountCleanup, playElevenLabsAudio;
    host_walk_with
      ltac:(idtac;
            match goal with
            | |- stable _ (bind (getStatusAsync _ _) _) =>
                apply stable_getStatus; [|intros ? ?]
            end)
      ltac:(grow_leaf positive_event).
Qed.

Lemma presenterDurations_app (a b : list Event) :
  presenterDurations (a ++ b) = (presenterDurations a ++ presenterDurations b)%list.
Proof.
  induction a as [|e a IH]; [reflexivity|].
  destruct e; simpl; rewrite ?IH; reflexivity.
Qed.

Lemma positive_durations (evs : list Event) :
  Forall positiveStart evs ->
  Forall (fun d => (0 < d)%Q) (presenterDurations evs).
Proof.
  induction 1 as [|e evs He _ IH]; [constructor|].
  destruct e; simpl; try exact IH. constructor; [exact He | exact IH].
Qed.

Lemma nonZero_durations (evs : list Event) :
  Forall nonZeroStart evs ->
  Forall (fun d => ~ (d == 0)%Q) (presenterDurations evs).
Proof.
  induction 1 as [|e evs He _ IH]; [constructor|].
  destruct e; simpl; try exact IH. constructor; [exact He | exact IH].
Qed.

(** When the audio loads and its status reports no duration, the call of
    the narration function returns, [onDurationReady] is not called, no
    presenter starts, the display is not touched, the completion callback
    is not called yet, and the new sound carries the playback callback. *)
Lemma playElevenLabsAudio_no_duration
  (text : string) (onFinish : FinishCallback)
  (onDurationReady : option DurationCallback) (env : Env) (h : Host) :
  loadsWithoutDuration env = true ->
  let r := playElevenLabsAudio text onFinish onDurationReady env h in
  fst r = Returned tt
  /\ count isDurationReady (history (snd r)) = count isDurationReady (history h)
  /\ count isPresenterStart (history (snd r))
     = count isPresenterStart (history h)
  /\ count isDisplay (history (snd r)) = count isDisplay (history h)
  /\ count isFinish (history (snd r)) = count isFinish (history h)
  /\ currentSubtitle (snd r) = currentSubtitle h
  /\ tasks (snd r) = tasks h
  /\ settled (snd r) = settled h
  /\ soundRef (snd r) = Some (created (history h))
  /\ listeners (snd r) = (created (history h), onFinish) :: listeners h
  /\ mounted (snd r) = mounted h
  /\ stage (snd r) = stage h.
Proof.
  unfold loadsWithoutDuration, synthesisFails, noDuration.
  destruct env as [key dir mode reply wr un cr st]. cbn.
  destruct reply as [[[] code [buffer|]]|]; cbn; try discriminate.
  destruct wr, un, cr; cbn; try discriminate.
  destruct st as [[loaded duration finished]|]; cbn; try discriminate.
  intros Hst.
  unfold playElevenLabsAudio, try_catch, bind, fetch, log, modify, throw,
    gets, ret, readArrayBuffer, writeAsStringAsync, unloadAsync, createAsync,
    getStatusAsync, setOnPlaybackStatusUpdate; cbn.
  destruct (soundRef h) as [old|]; cbn;
    destruct loaded; cbn in *;
    try (destruct duration as [d|]; cbn in *; try discriminate;
         try (destruct onDurationReady; cbn); rewrite ?Hst; cbn);
    rewrite ?created_app; cbn; rewrite ?Nat.add_0_r;
    split_all; count_events.
Qed.

(** The playback callback of a sound that just finished calls the
    completion callback once and leaves the display alone. *)
Lemma onPlaybackStatusUpdate_finishes
  (sound : Sound) (onFinish : FinishCallback) (st : AVPlaybackStatus)
  (h : Host) (others : list (Sound * FinishCallback)) :
  listeners h = (sound, onFinish) :: others ->
  isLoaded st && didJustFinish st = true ->
  let r := onPlaybackStatusUpdate sound st h in
  fst r = Returned tt
  /\ count isFinish (history (snd r)) = S (count isFinish (history h))
  /\ count isDisplay (history (snd r)) = count isDisplay (history h)
  /\ currentSubtitle (snd r) = currentSubtitle h
  /\ (forall n, onFinish = Resolve n ->
        mem n (settled (snd r)) = true
        /\ (mem n (settled h) = false ->
            stage (snd r) = if mounted h then continue else stage h)).
Proof.
  intros Hl Hst. destruct onFinish as [n].
  unfold onPlaybackStatusUpdate, bind, gets. rewrite Hl. cbn.
  rewrite Nat.eqb_refl, Hst.
  unfold callFinish, resolve, afterAudio, setStage, bind, log, modify, gets,
    ret; cbn.
  destruct (mem n (settled h)) eqn:Hn; cbn;
    destruct (mounted h) eqn:Hm; cbn; split_all; count_events.
  all: intros ? [= <-]; split;
    [|intros; first [congruence | reflexivity]].
  all: first [exact Hn | unfold mem; cbn; now rewrite Nat.eqb_refl].
Qed.

Lemma unmountCleanup_audioOk (env : Env) :
  stable (hist_inv audioOk) (unmountCleanup env).
Proof.
  intros h Hh. unfold unmountCleanup, exec, bind, gets, notAwaited. cbn.
  destruct (soundRef h) as [sound|] eqn:Hslot; cbn; [|exact Hh].
  unfold hist_inv, unloadAsync in *. destruct (unload_ok env); cbn.
  - now apply audioOk_unload.
  - apply audioOk_neutral; [exact I | exact Hh].
Qed.

Lemma handle_audioOk (i : Input) : stable (hist_inv audioOk) (handle i).
Proof.
  destruct i as [env|sound st|task|env]; unfold handle.
  - unfold speakTrainingMessage. cbv zeta.
    repeat (apply stable_bind; [host_walk audio_leaf | intros ?]).
    apply playElevenLabsAudio_audioOk.
  - host_walk audio_leaf.
  - host_walk audio_leaf.
  - apply stable_bind; [apply unmountCleanup_audioOk | intros ?].
    host_walk audio_leaf.
Qed.

Lemma run_invariant (I : Host -> Prop) :
  (forall i, stable I (handle i)) ->
  forall inputs h, I h -> I (run inputs h).
Proof.
  intros Hstep inputs. induction inputs as [|i inputs IH]; intros h Hh.
  - exact Hh.
  - apply IH. exact (Hstep i h Hh).
Qed.

(** Every state that a screen can reach keeps the invariant of the audio
    slot. *)
Lemma reachable_audioOk (inputs : list Input) :
  hist_inv audioOk (run inputs initial).
Proof.
  apply run_invariant; [exact handle_audioOk | apply audioOk_nil].
Qed.

(** C4.  In every state [h] that a screen can reach and for every further
    load, from start to end of the load the controller never has two
    sounds loaded at once, a loaded sound is the one in [soundRef], and a
    sound [A] that was loaded before the load is released before a new
    sound [B] is created. *)
Theorem soundRef_one_live
  (inputs : list Input) (text : string) (onFinish : FinishCallback)
  (onDurationReady : option DurationCallback) (env : Env) :
  let h := run inputs initial in
  let h' := exec (playElevenLabsAudio text onFinish onDurationReady env) h in
  neverTwoLive (history h')
  /\ (forall s, In s (liveSounds (history h')) -> soundRef h' = Some s)
  /\ (forall A B uri before after,
        In A (liveSounds (history h)) ->
        history h' = (history h ++ before ++ Create B uri :: after)%list ->
        In (Unload A) before).
Proof.
  intros h h'.
  assert (hist_inv audioOk h') as (Hnever & Hslot & _)
    by (apply playElevenLabsAudio_audioOk, reachable_audioOk).
  split; [exact Hnever | split; [exact Hslot|]].
  intros A B uri before after HA Hhist.
  apply released_between with (evs := history h); [exact HA|].
  specialize (Hnever ((history h ++ before) ++ [Create B uri])%list after).
  rewrite Hhist, <- !app_assoc in Hnever. specialize (Hnever eq_refl).
  rewrite !app_assoc, liveSounds_snoc in Hnever. cbn in Hnever.
  destruct (liveSounds (history h ++ before)) as [|x l]; [intros []|].
  cbn in Hnever. lia.
Qed.

Lemma soundRef_one_live_witness :
  let h := run [Start (Scenarios.plays (Some 3000%Q))] initial in
  let request :=
    synthesisRequest "key" narratorVoice "next" in
  In 0 (liveSounds (history h))
  /\ In (Unload 0) [Fetch request; WriteFile "cache/temp_audio.mp3" []; Unload 0].
Proof.
  intros h request.
  assert (In 0 (liveSounds (history h))) as Hlive by (vm_compute; now left).
  split; [exact Hlive|].
  apply (proj2 (proj2 (soundRef_one_live
                         [Start (Scenarios.plays (Some 3000%Q))] "next"
                         (Resolve 1) None (Scenarios.plays None)))
           0 1 "cache/temp_audio.mp3"
           [Fetch request; WriteFile "cache/temp_audio.mp3" []; Unload 0]
           [GetStatus 1; SetOnPlaybackStatusUpdate 1]).
  - exact Hlive.
  - vm_compute. reflexivity.
Defined.

(** C9, as the code has it.  When the audio loads and its status reports
    no duration (not loaded, or [durationMillis] absent or zero),
    [onDurationReady] is not called, no presenter starts and the display
    keeps its text; when the playback then finishes, the completion
    callback is called once and the session is settled, the display still
    untouched, and a mounted screen moves to the stage [continue].  On
    every screen, every duration ever handed to the presenter is not
    zero; it is positive when the audio engine reports no negative
    duration. *)
Theorem no_duration_no_subtitles :
  (forall text onFinish onDurationReady env h st,
      loadsWithoutDuration env = true ->
      isLoaded st && didJustFinish st = true ->
      let loaded :=
        snd (playElevenLabsAudio text onFinish onDurationReady env h) in
      let ended :=
        snd (onPlaybackStatusUpdate (created (history h)) st loaded) in
      count isDurationReady (history loaded)
      = count isDurationReady (history h)
      /\ count isPresenterStart (history loaded)
         = count isPresenterStart (history h)
      /\ tasks loaded = tasks h
      /\ currentSubtitle loaded = currentSubtitle h
      /\ count isFinish (history loaded) = count isFinish (history h)
      /\ count isFinish (history ended) = S (count isFinish (history h))
      /\ count isDisplay (history ended) = count isDisplay (history h)
      /\ currentSubtitle ended = currentSubtitle h
      /\ (forall n, onFinish = Resolve n ->
            mem n (settled ended) = true
            /\ (mem n (settled h) = false ->
                stage ended = if mounted h then continue else stage h)))
  /\ (forall inputs,
        Forall (fun d => ~ (d == 0)%Q)
          (presenterDurations (history (run inputs initial))))
  /\ (forall inputs,
        Forall noNegativeReport inputs ->
        Forall (fun d => (0 < d)%Q)
          (presenterDurations (history (run inputs initial)))).
Proof.
  split_all.
  - intros text onFinish onDurationReady env h st Henv Hst loaded ended.
    destruct (playElevenLabsAudio_no_duration
                text onFinish onDurationReady env h Henv)
      as (_ & Hd & Hp & Hdisp & Hfin & Hsub & Htasks & Hset & _ & Hl
          & Hm & Hstage0).
    fold loaded in Hd, Hp, Hdisp, Hfin, Hsub, Htasks, Hset, Hl, Hm, Hstage0.
    destruct (onPlaybackStatusUpdate_finishes
                (created (history h)) onFinish st loaded (listeners h) Hl Hst)
      as (_ & Hfin' & Hdisp' & Hsub' & Hres).
    fold ended in Hfin', Hdisp', Hsub', Hres.
    split_all; try congruence.
    intros n Hn. destruct (Hres n Hn) as [Hmem Hstage].
    split; [exact Hmem|]. intros Hnot.
    rewrite <- Hm, <- Hstage0. apply Hstage. now rewrite Hset.
  - intros inputs.
    assert (hist_inv (fun evs _ => grewBy nonZeroStart [] evs)
              (run inputs initial)) as (evs & Hevs & Hall).
    { apply run_invariant; [exact handle_nonZeroStart | apply grewBy_refl]. }
    rewrite Hevs. now apply nonZero_durations.
  - intros inputs Hinputs.
    assert (hist_inv (fun evs _ => grewBy positiveStart [] evs)
              (run inputs initial)) as (evs & Hevs & Hall).
    { generalize (grewBy_refl positiveStart []).
      change (grewBy positiveStart [] [])
        with (hist_inv (fun evs _ => grewBy positiveStart [] evs) initial).
      generalize initial.
      induction Hinputs as [|i inputs Hi _ IH]; intros h Hh; [exact Hh|].
      apply IH. exact (handle_positiveStart i Hi h Hh). }
    rewrite Hevs. now apply positive_durations.
Qed.

Lemma no_duration_no_subtitles_witness :
  let loaded :=
    snd (playElevenLabsAudio "Hello" (Resolve 0)
           (Some (StartSubtitles 0 ["Hello"])) (Scenarios.plays None)
           initial) in
  let ended := snd (onPlaybackStatusUpdate 0 Scenarios.justFinished loaded) in
  (currentSubtitle loaded = "" /\ tasks loaded = []
   /\ currentSubtitle ended = "" /\ stage ended = continue)
  /\ Forall noNegativeReport [Start (Scenarios.plays (Some 3000%Q))]
  /\ Forall (fun d => (0 < d)%Q)
       (presenterDurations
          (history (run [Start (Scenarios.plays (Some 3000%Q))] initial))).
Proof.
  intros loaded ended.
  destruct (proj1 no_duration_no_subtitles
              "Hello" (Resolve 0) (Some (StartSubtitles 0 ["Hello"]))
              (Scenarios.plays None) initial Scenarios.justFinished
              eq_refl eq_refl)
    as (_ & _ & Htasks & Hsub & _ & _ & _ & Hsub' & Hres).
  destruct (Hres 0 eq_refl) as [_ Hstage].
  assert (Forall noNegativeReport [Start (Scenarios.plays (Some 3000%Q))])
    as Hreports by (constructor; [cbn; discriminate | constructor]).
  split_all;
    [exact Hsub | exact Htasks | exact Hsub' | exact (Hstage eq_refl)
    | exact Hreports
    | exact (proj2 (proj2 no_duration_no_subtitles) _ Hreports)].
Defined.

(** C9, as the specification has it, fails: the guard of the code is the
    truthiness of [durationMillis], so a negative duration that the audio
    engine reports is handed to the presenter. *)
Lemma negative_duration_starts_presenter :
  let h := run [Start (Scenarios.plays (Some (-250)%Q))] initial in
  presenterDurations (history h) = [(-250)%Q]
  /\ ~ Forall (fun d => (0 < d)%Q) (presenterDurations (history h)).
Proof.
  intros h.
  assert (presenterDurations (history h) = [(-250)%Q]) as Hd
    by (vm_compute; reflexivity).
  split; [exact Hd|]. rewrite Hd. intros H.
  inversion H as [|d ds Hneg _]. discriminate Hneg.
Qed.

(** The training session itself, from mount: no duration, then the end of
    the playback. *)
Example training_without_duration :
  let h := run [Start (Scenarios.plays None);
                PlaybackStatus 0 Scenarios.justFinished] initial in
  currentSubtitle h = "" /\ tasks h = [] /\ stage h = continue
  /\ settled h = [0] /\ count isFinish (history h) = 1.
Proof. vm_compute. repeat split. Qed.










End TrainingFacts.

(** ** The avatar view and its bridge *)

Module AvatarFacts.
Import JsString JsStringFacts Js JsFacts Platform PlatformFacts Avatar3D.
Local Open Scope js_scope.

Ltac count_list := unfold count; cbn; try reflexivity; try lia.

Ltac run_greeting :=
  unfold playGreeting, try_catch, bind, setAudioModeAsync, fetch,
    readArrayBuffer, writeAsStringAsync, createAsync, callGreetingComplete,
    log, modify, throw, gets, ret, exec; cbn.

(** What one greeting does, on every path: it opens with the audio mode,
    makes at most one request (the POST of the voice of the avatar's
    gender), posts nothing and leaves the flag alone. *)
Lemma playGreeting_events (props : Props) (env : Env) (a : Avatar) :
  let a' := exec (playGreeting props env) a in
  let request :=
    synthesisRequest (apiKey env) (greetingVoice (avatarGender a))
      ("Hello " ++ userName props ++ "! Looking forward to working together!") in
  hasPlayedGreeting a' = hasPlayedGreeting a
  /\ error a' = error a
  /\ exists evs,
       history a' = (history a ++ SetAudioMode :: evs)%list
       /\ count isGreetingStart evs = 0
       /\ count isPost evs = 0
       /\ (if audioMode_ok env
           then exists rest, evs = Fetch request :: rest /\ count isFetch rest = 0
           else count isFetch evs = 0).
Proof.
  destruct env as [key dir mode reply wr un cr st].
  destruct props as [acc name cb].
  destruct mode, reply as [[[] code [buffer|]]|], wr, cr, cb;
    run_greeting;
    (split; [reflexivity | split; [reflexivity|]]);
    rewrite <- ?app_assoc; cbn [app];
    (eexists; split; [reflexivity|]); split_all; try count_list;
    eexists; (split; [reflexivity | count_list]).
Qed.

(** When the synthesis step fails, the greeting returns and calls
    [onGreetingComplete] once, if it was passed. *)
Lemma playGreeting_failed (props : Props) (env : Env) (a : Avatar) :
  synthesisFails env = true ->
  let r := playGreeting props env a in
  fst r = Returned tt
  /\ count isGreetingComplete (history (snd r))
     = count isGreetingComplete (history a)
       + (if onGreetingComplete props then 1 else 0)
  /\ greetingSounds (snd r) = greetingSounds a.
Proof.
  unfold synthesisFails.
  destruct env as [key dir mode reply wr un cr st].
  destruct props as [acc name cb]. cbn.
  destruct reply as [[[] code [buffer|]]|]; cbn;
    try destruct wr; cbn; try discriminate; intros _;
    destruct mode, cb; run_greeting; split_all;
    rewrite ?count_app, ?count_one; cbn; try reflexivity; lia.
Qed.

Lemma acceptedEffect_greetedOnce
  (props : Props) (attached : bool) (env : Env) (a : Avatar) :
  greetedOnce a -> greetedOnce (exec (acceptedEffect props attached env) a).
Proof.
  intros (Hp & Hg & Hflag).
  unfold acceptedEffect, exec, bind, gets. cbn.
  destruct (accepted props && attached && negb (hasPlayedGreeting a))
    eqn:Hfire; cbn; [|exact (conj Hp (conj Hg Hflag))].
  assert (hasPlayedGreeting a = false) as Hdown.
  { destruct (hasPlayedGreeting a); [|reflexivity].
    rewrite !andb_false_r in Hfire. discriminate. }
  destruct (Hflag Hdown) as [Hp0 Hg0].
  unfold setHasPlayedGreeting, log, modify, bind. cbn.
  match goal with
  | |- context [playGreeting props env ?a2] =>
      destruct (playGreeting_events props env a2)
        as (Hflag' & _ & evs & Hhist & Hgs & Hps & _)
  end.
  unfold exec in *. cbn in Hflag', Hhist.
  unfold greetedOnce. rewrite Hhist, Hflag'.
  rewrite !count_app, ?count_one, ?count_cons, Hp0, Hg0, Hgs, Hps. cbn.
  split_all; try lia; discriminate.
Qed.

Lemma step_greetedOnce (a : Avatar) (i : Input) :
  greetedOnce a -> greetedOnce (step a i).
Proof.
  intros Ha. destruct i as [props attached env|raw| | |g|props sound st];
    unfold step, handle.
  - now apply acceptedEffect_greetedOnce.
  - destruct Ha as (Hp & Hg & Hflag).
    unfold onMessage, setError, exec, bind, log, modify, ret.
    destruct (includes raw "Failed" || includes raw "Fatal");
      destruct (includes raw "Avatar loaded" || includes raw "Scene ready");
      cbn; unfold greetedOnce; cbn; rewrite ?count_app, ?count_one; cbn;
      rewrite ?Nat.add_0_r; split_all; assumption.
  - exact Ha.
  - destruct Ha as (Hp & Hg & Hflag).
    unfold onError, setError, exec, bind, log, modify. cbn.
    unfold greetedOnce. cbn. rewrite ?count_app, ?count_one. cbn.
    rewrite ?Nat.add_0_r. split_all; assumption.
  - exact Ha.
  - destruct Ha as (Hp & Hg & Hflag).
    unfold onPlaybackStatusUpdate, callGreetingComplete, exec, bind, gets,
      log, modify, ret. cbn.
    destruct (existsb (Nat.eqb sound) (greetingSounds a)
              && isLoaded st && didJustFinish st);
      [destruct (onGreetingComplete props)|];
      cbn; unfold greetedOnce; cbn; rewrite ?count_app, ?count_one; cbn;
      rewrite ?Nat.add_0_r; split_all; assumption.
Qed.

(** C10.  However often the effect runs, and whatever else happens to
    the view in between, at most one [switchToTalking] command is posted
    and at most one greeting is started. *)
Theorem greeting_at_most_once (inputs : list Input) :
  count isPost (history (run inputs initial)) <= 1
  /\ count isGreetingStart (history (run inputs initial)) <= 1.
Proof.
  assert (forall a, greetedOnce a -> greetedOnce (run inputs a)) as Hrun.
  { induction inputs as [|i inputs IH]; intros a Ha; [exact Ha|].
    apply IH. now apply step_greetedOnce. }
  destruct (Hrun initial) as (Hp & Hg & _).
  - unfold greetedOnce, count. cbn. auto.
  - split; assumption.
Qed.

Lemma onMessage_cases (message : string) (a : Avatar) :
  let r := onMessage message a in
  fst r = Returned tt
  /\ (failureMarked message = true ->
      exists after,
        history (snd r) = (history a ++ SetError (Some message) :: after)%list)
  /\ (failureMarked message = true -> successMarked message = false ->
      error (snd r) = Some message)
  /\ (successMarked message = true -> error (snd r) = None)
  /\ (failureMarked message = false -> successMarked message = false ->
      snd r = a).
Proof.
  unfold onMessage, failureMarked, successMarked, setError, bind, log, modify,
    ret.
  destruct (includes message "Failed" || includes message "Fatal");
    destruct (includes message "Avatar loaded"
              || includes message "Scene ready");
    cbn; split_all; try reflexivity; try discriminate; intros _.
  - exists [SetError None]. now rewrite <- app_assoc.
  - now exists [].
Qed.

(** C6.  The host classifies a surface event by its markers: with
    "Failed" or "Fatal" it calls [setError(message)], and the error stays
    set unless the same message also carries a success marker; with
    "Avatar loaded" or "Scene ready" the error state ends cleared; a
    message with no marker changes nothing.  After the command
    [switchToTalking] was sent, the event "Avatar loaded" clears any
    error. *)
Theorem onMessage_classifies (message : string) (a : Avatar) :
  let r := onMessage message a in
  fst r = Returned tt
  /\ (failureMarked message = true ->
      exists after,
        history (snd r) = (history a ++ SetError (Some message) :: after)%list)
  /\ (failureMarked message = true -> successMarked message = false ->
      error (snd r) = Some message)
  /\ (successMarked message = true -> error (snd r) = None)
  /\ (failureMarked message = false -> successMarked message = false ->
      snd r = a)
  /\ (forall props env,
        accepted props = true -> hasPlayedGreeting a = false ->
        let sent := step a (Render props true env) in
        (exists before after,
            history sent
            = (history a ++ before ++ PostMessage switchToTalking :: after)%list)
        /\ error sent = error a
        /\ error (step sent (Message "Avatar loaded")) = None
        /\ error (step sent (Message "Scene ready")) = None).
Proof.
  destruct (onMessage_cases message a) as (H1 & H2 & H3 & H4 & H5).
  intros r. subst r. split_all; try assumption.
  intros props env Hacc Hdown sent.
  assert (error (step sent (Message "Avatar loaded")) = None) as Hloaded
    by (apply (onMessage_cases "Avatar loaded" sent); reflexivity).
  assert (error (step sent (Message "Scene ready")) = None) as Hready
    by (apply (onMessage_cases "Scene ready" sent); reflexivity).
  split_all; try assumption; subst sent;
    unfold step, handle, acceptedEffect, exec, bind, gets; cbn;
    rewrite Hacc, Hdown; cbn;
    unfold setHasPlayedGreeting, log, modify, bind; cbn;
    match goal with
    | |- context [playGreeting props env ?a2] =>
        destruct (playGreeting_events props env a2)
          as (_ & Herr & evs & Hhist & _)
    end;
    unfold exec in *; cbn in Herr, Hhist.
  - rewrite Hhist, <- !app_assoc. cbn.
    exists [SetHasPlayedGreeting true], (SetAudioMode :: evs). reflexivity.
  - exact Herr.
Qed.

Lemma onMessage_classifies_witness :
  let failed := {| loading := false; error := None; hasPlayedGreeting := false;
                   avatarGender := male; greetingSounds := [];
                   history := [] |} in
  let r := onMessage "Failed to load avatar" failed in
  failureMarked "Failed to load avatar" = true
  /\ error (snd r) = Some "Failed to load avatar"
  /\ error (step (snd r) (Message "Avatar loaded")) = None.
Proof.
  intros failed r. split; [reflexivity|]. split.
  - apply (proj1 (proj2 (proj2 (onMessage_classifies
                                  "Failed to load avatar" failed))));
      reflexivity.
  - apply (proj1 (proj2 (proj2 (proj2 (onMessage_classifies
                                         "Avatar loaded" (snd r))))));
      reflexivity.
Defined.

Section Bridge.

Variable JSON_parse : string -> option json.

(** C5.  On each side of the bridge a raw string never makes the handler
    throw.  In the page, a text that does not parse is logged and
    dropped, as is [null]; a parsed message whose [action] is not
    [switchToTalking] changes nothing; only [switchToTalking] commands the
    scene.  In the host, a message without a marker changes nothing. *)
Theorem bridge_never_raises (data : string) (scene : list Event) (a : Avatar) :
  let r := windowMessageListener JSON_parse data scene in
  fst r = Returned tt
  /\ (JSON_parse data = None ->
      snd r = (scene ++ [ConsoleError
                 "Message parsing error: SyntaxError: JSON Parse error"])%list)
  /\ (JSON_parse data = Some JNull ->
      exists e, snd r = (scene ++ [ConsoleError e])%list)
  /\ (forall message,
        JSON_parse data = Some message -> message <> JNull ->
        strictEqString (actionOf message) "switchToTalking" = false ->
        snd r = scene)
  /\ (forall message,
        JSON_parse data = Some message ->
        strictEqString (actionOf message) "switchToTalking" = true ->
        snd r = (scene ++ talkingCommands)%list)
  /\ fst (onMessage data a) = Returned tt
  /\ (failureMarked data = false -> successMarked data = false ->
      snd (onMessage data a) = a).
Proof.
  intros r. subst r.
  unfold windowMessageListener, parse, try_catch, bind.
  split_all.
  - destruct (JSON_parse data) as [message|]; [|reflexivity].
    destruct message; cbn; try reflexivity.
    destruct (strictEqString (lookup "action" members) "switchToTalking");
      reflexivity.
  - intros ->. reflexivity.
  - intros ->. cbn. eexists. reflexivity.
  - intros message -> Hnull Haction.
    destruct message; cbn in *; try reflexivity; [congruence|].
    now rewrite Haction.
  - intros message -> Haction.
    destruct message; cbn in *; try discriminate.
    rewrite Haction. cbn. unfold talkingCommands.
    now rewrite <- !app_assoc.
  - apply onMessage_cases.
  - apply onMessage_cases.
Qed.

End Bridge.

Lemma bridge_never_raises_witness :
  Scenarios.parseNullOnly "not json" = None
  /\ snd (windowMessageListener Scenarios.parseNullOnly "not json" [])
     = [ConsoleError "Message parsing error: SyntaxError: JSON Parse error"].
Proof.
  split; [reflexivity|].
  apply (proj1 (proj2 (bridge_never_raises Scenarios.parseNullOnly
                         "not json" [] initial))).
  reflexivity.
Defined.

(** Two renders with [accepted] set: one command, one greeting. *)
Example greeting_once_demo :
  let accept := {| accepted := true; userName := "Ana";
                   onGreetingComplete := true |} in
  let a := run [Render accept true (Scenarios.plays None);
                Render accept true (Scenarios.plays None)] initial in
  count isPost (history a) = 1 /\ count isGreetingStart (history a) = 1.
Proof. vm_compute. split; reflexivity. Qed.

End AvatarFacts.

(** ** Both narration paths together *)

Module SessionFacts.
Import JsString Js JsFacts Platform PlatformFacts.
Import TrainingFacts AvatarFacts.

(** C3.  When the synthesis step fails (the request is rejected, the
    provider answers without success, or the audio cannot be read or
    stored), the narration call still returns and calls the completion
    callback exactly once, the display and the presenter runs stay as they
    were, and the promise that the caller awaits is settled; from mount,
    the training screen ends with an empty display on the stage
    [continue]; the avatar greeting likewise returns and calls
    [onGreetingComplete] once when it was passed. *)
Theorem failed_synthesis_completes (env : Env) :
  synthesisFails env = true ->
  (forall text onFinish onDurationReady h,
      let r := Training.playElevenLabsAudio text onFinish onDurationReady env h in
      fst r = Returned tt
      /\ count isFinish (Training.history (snd r))
         = S (count isFinish (Training.history h))
      /\ count isDisplay (Training.history (snd r))
         = count isDisplay (Training.history h)
      /\ Training.currentSubtitle (snd r) = Training.currentSubtitle h
      /\ Training.tasks (snd r) = Training.tasks h
      /\ (forall n, onFinish = Training.Resolve n ->
            Training.mem n (Training.settled (snd r)) = true))
  /\ (let h := Training.step Training.initial (Training.Start env) in
      Training.stage h = continue
      /\ Training.settled h = [0]
      /\ Training.currentSubtitle h = ""
      /\ Training.tasks h = []
      /\ count isFinish (Training.history h) = 1
      /\ count isDisplay (Training.history h) = 0)
  /\ (forall props a,
        let r := Avatar3D.playGreeting props env a in
        fst r = Returned tt
        /\ count isGreetingComplete (Avatar3D.history (snd r))
           = count isGreetingComplete (Avatar3D.history a)
             + (if Avatar3D.onGreetingComplete props then 1 else 0)).
Proof.
  intros Hfail. split_all.
  - intros text onFinish onDurationReady h r. subst r.
    destruct (playElevenLabsAudio_failed
                text onFinish onDurationReady env h Hfail)
      as (H1 & H2 & H3 & H4 & H5 & _ & _ & H8).
    split_all; try assumption. intros n Hn. now apply H8.
  - unfold Training.step, Training.handle, Training.speakTrainingMessage.
    generalize (Chunker.splitIntoChunks Training.trainingText) as chunks.
    generalize Training.trainingText as text. intros text chunks.
    unfold exec, bind, Training.setStage, log, modify, gets. cbn.
    match goal with
    | |- context [Training.playElevenLabsAudio text ?f ?d env ?h1] =>
        destruct (playElevenLabsAudio_failed text f d env h1 Hfail)
          as (_ & H2 & H3 & H4 & H5 & _ & _ & H8)
    end.
    destruct (H8 0 eq_refl) as [_ Hfresh].
    destruct (Hfresh eq_refl) as [Hsettled Hstage].
    cbn in *. specialize (Hstage eq_refl). split_all; assumption.
  - intros props a r. subst r.
    destruct (playGreeting_failed props env a Hfail) as (H1 & H2 & _).
    split; assumption.
Qed.

Lemma failed_synthesis_completes_witness :
  synthesisFails Scenarios.http500 = true
  /\ (let h := Training.step Training.initial
                 (Training.Start Scenarios.http500) in
      Training.stage h = continue
      /\ Training.settled h = [0]
      /\ Training.currentSubtitle h = ""
      /\ Training.tasks h = []
      /\ count isFinish (Training.history h) = 1
      /\ count isDisplay (Training.history h) = 0).
Proof.
  split; [reflexivity|].
  exact (proj1 (proj2 (failed_synthesis_completes Scenarios.http500 eq_refl))).
Defined.

Lemma notFetch_count (evs : list Event) :
  Forall notFetch evs -> count isFetch evs = 0.
Proof.
  intros H. apply count_zero_Forall.
  apply (Forall_impl _ (P := notFetch)); [|exact H].
  intros e He. destruct e; simpl in *; tauto.
Qed.

(** C8.  Every call of the narration function makes exactly one request,
    and a greeting makes exactly one once the audio mode is set (none
    when that fails): a POST that carries the API key in the header
    [xi-api-key] and the body [{ text, model_id, voice_settings:
    { stability, similarity_boost, style, use_speaker_boost } }], to the
    narrator voice, or to the male or female greeting voice after the
    gender of the avatar; the three voices are distinct. *)
Theorem synthesis_request_shape :
  (forall text onFinish onDurationReady env h,
      exists evs,
        Training.history
          (exec (Training.playElevenLabsAudio text onFinish onDurationReady env) h)
        = (Training.history h
           ++ Fetch (synthesisRequest (apiKey env) narratorVoice text) :: evs)%list
        /\ count isFetch evs = 0)
  /\ (forall props env a,
        exists evs,
          Avatar3D.history (exec (Avatar3D.playGreeting props env) a)
          = (Avatar3D.history a ++ SetAudioMode :: evs)%list
          /\ (if audioMode_ok env
              then exists rest,
                  evs = Fetch (synthesisRequest (apiKey env)
                                 (Avatar3D.greetingVoice (Avatar3D.avatarGender a))
                                 ("Hello " ++ Avatar3D.userName props
                                  ++ "! Looking forward to working together!"))
                        :: rest
                  /\ count isFetch rest = 0
              else count isFetch evs = 0))
  /\ (forall key voiceId text,
        let r := synthesisRequest key voiceId text in
        method r = "POST"
        /\ url r = "https://api.elevenlabs.io/v1/text-to-speech/" ++ voiceId
                   ++ "?output_format=mp3_44100_128"
        /\ headers r = [("xi-api-key", key);
                        ("Content-Type", "application/json")]
        /\ body r
           = JObject
               [("text", JString text);
                ("model_id", JString "eleven_flash_v2_5");
                ("voice_settings",
                 JObject [("stability", JNumber (7 # 10));
                          ("similarity_boost", JNumber (1 # 2));
                          ("style", JNumber 0);
                          ("use_speaker_boost", JBool false)])])
  /\ Avatar3D.greetingVoice Avatar3D.male = maleVoice
  /\ Avatar3D.greetingVoice Avatar3D.female = femaleVoice
  /\ maleVoice <> femaleVoice
  /\ narratorVoice <> maleVoice
  /\ narratorVoice <> femaleVoice.
Proof.
  split_all; try reflexivity; try discriminate.
  - intros text onFinish onDurationReady env h.
    destruct (playElevenLabsAudio_one_request
                text onFinish onDurationReady env h) as (evs & Hevs & Hall).
    exists evs. split; [exact Hevs | now apply notFetch_count].
  - intros props env a.
    destruct (playGreeting_events props env a)
      as (_ & _ & evs & Hhist & _ & _ & Hreq).
    exists evs. split; assumption.
  - intros key voiceId text. cbn. split_all; reflexivity.
Qed.

End SessionFacts.

(** ** More on the chunker *)

Module ChunkerShapeFacts.
Import JsString JsStringFacts Chunker ChunkerFacts ChunkerShape.

Lemma step_nonempty (st : acc) (w : string) :
  nonempty_inv st -> nonempty_inv (step st w).
Proof.
  destruct st as [chunks cur]. unfold nonempty_inv. rewrite step_cases.
  cbn [fst]. intros H. destruct (truthy cur) eqn:T; [|exact H].
  destruct (_ <? _)%nat; cbn [fst]; [|exact H].
  apply Forall_app. split; [exact H|].
  constructor; [now apply truthy_true | constructor].
Qed.

Lemma fold_nonempty (ws : list string) :
  forall st, nonempty_inv st -> nonempty_inv (fold_left step ws st).
Proof.
  induction ws as [|w ws IH]; intros st H; [exact H|].
  apply IH. now apply step_nonempty.
Qed.

Lemma step_started (st : acc) (w : string) :
  started st -> started (step st w).
Proof.
  destruct st as [chunks cur]. unfold started. rewrite step_cases.
  cbn [fst snd]. intros [H|H].
  - destruct (truthy cur); [destruct (_ <? _)%nat|]; cbn [fst snd];
      try (left; exact H).
    left. intros E. apply app_eq_nil in E as [E _]. contradiction.
  - apply truthy_true in H as T. rewrite T.
    destruct (_ <? _)%nat; cbn [fst snd].
    + left. intros E. apply app_eq_nil in E as [_ E]. discriminate.
    + right. now apply append_not_empty.
Qed.

Lemma step_starts (st : acc) (w : string) :
  w <> "" -> started (step st w).
Proof.
  intros Hw. destruct st as [chunks cur]. unfold started. rewrite step_cases.
  destruct (truthy cur) eqn:T; [destruct (_ <? _)%nat|]; cbn [fst snd].
  - right. exact Hw.
  - right. apply append_not_empty. now apply truthy_true.
  - right. exact Hw.
Qed.

Lemma fold_started (ws : list string) :
  forall st, started st \/ Exists (fun w => w <> "") ws ->
             started (fold_left step ws st).
Proof.
  induction ws as [|w ws IH]; intros st [H|H]; cbn [fold_left].
  - exact H.
  - inversion H.
  - apply IH. left. now apply step_started.
  - apply IH. inversion H as [? ? Hw|? ? Hws]; subst.
    + left. now apply step_starts.
    + now right.
Qed.

Lemma fold_blank (ws : list string) :
  Forall (fun w => w = "") ws -> fold_left step ws ([], "") = ([], "").
Proof.
  induction 1 as [|w ws Hw _ IH]; [reflexivity|].
  subst w. cbn [fold_left]. rewrite step_cases. cbn [truthy]. exact IH.
Qed.

(** A text that yields no chunk has only empty words. *)
Lemma no_chunks_blank (text : string) :
  splitIntoChunks text = [] -> Forall (fun w => w = "") (words text).
Proof.
  unfold splitIntoChunks. intros Hnil. apply Forall_forall. intros w Hin.
  destruct (string_dec w "") as [E|Hne]; [exact E | exfalso].
  assert (started (fold_left step (words text) ([], ""))) as Hs.
  { apply fold_started. right. apply Exists_exists. now exists w. }
  destruct (fold_left step (words text) ([], "")) as [chunks cur].
  unfold started in Hs. cbn [fst snd flush] in *.
  destruct (truthy cur) eqn:T.
  - apply app_eq_nil in Hnil as [_ E]. discriminate.
  - apply truthy_false in T. subst. tauto.
Qed.

(** X1.  For every text, no chunk is empty; and there is no chunk at all
    exactly when the text has no character other than spaces (every piece
    of [text.split(" ")] is empty). *)
Theorem chunks_not_empty (text : string) :
  Forall (fun c => c <> "") (splitIntoChunks text)
  /\ (splitIntoChunks text = [] <-> Forall (fun w => w = "") (words text)).
Proof.
  unfold splitIntoChunks. split.
  - pose proof (fold_nonempty (words text) ([], "") (Forall_nil _)) as H.
    destruct (fold_left step (words text) ([], "")) as [chunks cur].
    unfold nonempty_inv in H. cbn [fst flush] in *.
    destruct (truthy cur) eqn:T; [|exact H].
    apply Forall_app. split; [exact H|].
    constructor; [now apply truthy_true | constructor].
  - split.
    + apply (no_chunks_blank text).
    + intros Hblank. now rewrite fold_blank.
Qed.

Lemma chunks_not_empty_witness :
  Forall (fun w => w = "") (words "   ") /\ splitIntoChunks "   " = [].
Proof.
  assert (Forall (fun w => w = "") (words "   ")) as H
    by (cbn; repeat constructor).
  split; [exact H|]. exact (proj2 (proj2 (chunks_not_empty "   ")) H).
Defined.

(** A word followed by the separator is the first piece of the split. *)
Lemma split_app_sep (c : ascii) (w rest : string) :
  has_char c w = false ->
  split c (w ++ String c rest) = w :: split c rest.
Proof.
  induction w as [|a w IH]; cbn [append has_char split]; intros H.
  - now rewrite Ascii.eqb_refl.
  - apply orb_false_iff in H as [Ha Hw]. rewrite Ha, (IH Hw). reflexivity.
Qed.

(** Splitting the join of words without separator gives the words back. *)
Lemma split_concat (c : ascii) (l : list string) :
  l <> [] -> Forall (fun w => has_char c w = false) l ->
  split c (String.concat (String c "") l) = l.
Proof.
  induction l as [|x l IH]; intros Hne Hall; [congruence|].
  inversion Hall as [|? ? Hx Hl]; subst.
  destruct l as [|y l].
  - cbn [String.concat]. now apply split_without_sep.
  - rewrite concat_cons by discriminate.
    change (x ++ String c "" ++ String.concat (String c "") (y :: l))
      with (x ++ String c (String.concat (String c "") (y :: l))).
    rewrite (split_app_sep c x _ Hx), IH; [reflexivity | discriminate | exact Hl].
Qed.

(** X2.  For a text without leading, trailing or doubled space, the words
    of the chunks, in order, are the words of the text, so the word total
    that the presenter divides by is the word count of the text. *)
Theorem chunks_keep_words (text : string) :
  well_spaced text ->
  flat_map words (splitIntoChunks text) = words text
  /\ Presenter.totalWords (splitIntoChunks text) = wordCount text.
Proof.
  intros Hws.
  assert (flat_map words (splitIntoChunks text) = words text) as Hwords.
  { pose proof (reconstructs_well_spaced text Hws) as Hrec.
    unfold reconstructs, unwords in Hrec.
    rewrite <- Hrec at 2. unfold words at 3. symmetry.
    apply split_concat.
    - assert (splitIntoChunks text <> []) as Hne.
      { intros Hnil. apply no_chunks_blank in Hnil.
        unfold well_spaced in Hws.
        pose proof (split_not_nil space text) as Hsplit.
        fold (words text) in Hsplit.
        destruct (words text) as [|w ws]; [congruence|].
        inversion Hws; inversion Hnil; subst. congruence. }
      destruct (splitIntoChunks text) as [|c cs]; [congruence|].
      cbn [flat_map]. intros E. apply app_eq_nil in E as [E _].
      now apply split_not_nil in E.
    - apply Forall_forall. intros w Hin. apply in_flat_map in Hin as (c & _ & Hin).
      now apply (split_no_sep space c). }
  split; [exact Hwords|].
  rewrite PresenterFacts.totalWords_sum. unfold wordCount at 2.
  rewrite <- Hwords, length_flat_map. reflexivity.
Qed.

Lemma chunks_keep_words_witness :
  well_spaced "Hello there friend"
  /\ Presenter.totalWords (splitIntoChunks "Hello there friend") = 3.
Proof.
  assert (well_spaced "Hello there friend") as Hws
    by (unfold well_spaced; simpl; repeat constructor; discriminate).
  split; [exact Hws|].
  exact (proj2 (chunks_keep_words "Hello there friend" Hws)).
Defined.

Lemma firstWord_append (a b : string) :
  firstWord (a ++ " " ++ b) = firstWord a.
Proof.
  unfold firstWord, words.
  change (a ++ " " ++ b) with (a ++ String space b).
  induction a as [|x a IH]; cbn [append split].
  - reflexivity.
  - destruct (Ascii.eqb x space); [reflexivity|].
    pose proof (split_not_nil space (a ++ String space b)) as H1.
    pose proof (split_not_nil space a) as H2.
    destruct (split space (a ++ String space b)) as [|w ws]; [congruence|].
    destruct (split space a) as [|w' ws']; [congruence|].
    cbn [hd] in *. now rewrite IH.
Qed.

Lemma full_snoc (lines : list string) (line w : string) :
  full (lines ++ [line]) w <-> threshold < String.length (line ++ " " ++ w).
Proof.
  unfold full. rewrite last_last.
  destruct (lines ++ [line])%list eqn:E; [|reflexivity].
  apply app_eq_nil in E as [_ E]. discriminate.
Qed.

Lemma full_more (lines : list string) (w : string) :
  full lines "" -> full lines w.
Proof.
  unfold full. destruct lines; [trivial|].
  rewrite !length_append. cbn. lia.
Qed.

Lemma tight_snoc (lines : list string) (line : string) :
  tight lines -> full lines (firstWord line) -> tight (lines ++ [line]).
Proof.
  induction lines as [|x lines IH]; intros Ht Hf; [exact I|].
  destruct lines as [|y lines].
  - cbn in *. split; [exact Hf | exact I].
  - destruct Ht as [Hxy Ht]. cbn [app tight]. split; [exact Hxy|].
    apply IH; [exact Ht | exact Hf].
Qed.

Lemma step_tight (st : acc) (w : string) :
  has_char space w = false -> tight_inv st -> tight_inv (step st w).
Proof.
  intros Hw [Ht Hf]. destruct st as [chunks cur]. unfold tight_inv.
  rewrite step_cases. cbn [fst snd] in *.
  destruct (truthy cur) eqn:T.
  - destruct (threshold <? String.length (cur ++ " " ++ w))%nat eqn:L;
      cbn [fst snd].
    + split; [now apply tight_snoc|]. apply full_snoc.
      unfold firstWord, words. rewrite (split_without_sep space w Hw).
      cbn [hd]. now apply Nat.ltb_lt.
    + split; [exact Ht|]. now rewrite firstWord_append.
  - cbn [fst snd]. split; [exact Ht|].
    apply truthy_false in T. subst cur. now apply full_more.
Qed.

Lemma fold_tight (ws : list string) :
  forall st, Forall (fun w => has_char space w = false) ws ->
             tight_inv st -> tight_inv (fold_left step ws st).
Proof.
  induction ws as [|w ws IH]; intros st Hws Hst; [exact Hst|].
  inversion Hws; subst. apply IH; [assumption|]. now apply step_tight.
Qed.

Lemma tight_adjacent (before after : list string) (line next : string) :
  tight (before ++ line :: next :: after) ->
  threshold < String.length (line ++ " " ++ firstWord next).
Proof.
  induction before as [|x before IH]; cbn [app].
  - intros [H _]. exact H.
  - destruct before as [|y before]; cbn [app] in *; intros [_ H]; now apply IH.
Qed.

(** X3.  The chunker is greedy, for every text: a chunk that is followed
    by another one could not have taken the first word of that one, since
    the chunk, a space and that word are more than 50 characters. *)
Theorem chunks_are_greedy (text : string) :
  forall before line next after,
    splitIntoChunks text = (before ++ line :: next :: after)%list ->
    threshold < String.length (line ++ " " ++ firstWord next).
Proof.
  intros before line next after Heq.
  apply (tight_adjacent before after). rewrite <- Heq.
  unfold splitIntoChunks.
  assert (tight_inv (fold_left step (words text) ([], ""))) as [Ht Hf].
  { apply fold_tight; [|split; exact I].
    apply Forall_forall. intros w Hin. now apply (split_no_sep space text). }
  destruct (fold_left step (words text) ([], "")) as [chunks cur].
  cbn [fst snd flush] in *. destruct (truthy cur); [|exact Ht].
  now apply tight_snoc.
Qed.

Lemma chunks_are_greedy_witness :
  50 < String.length ("one two three four five six seven eight nine ten"
                      ++ " " ++ firstWord "eleven twelve").
Proof.
  apply (chunks_are_greedy
           "one two three four five six seven eight nine ten eleven twelve"
           [] "one two three four five six seven eight nine ten"
           "eleven twelve" []).
  reflexivity.
Defined.

End ChunkerShapeFacts.

(** ** Timing of a presenter run *)

Module PresenterTimingFacts.
Import JsString JsStringFacts Presenter PresenterFacts PresenterTiming.


Lemma schedule_next (m : Q) (c c' : string) (cs : list string) :
  schedule m (c :: c' :: cs)
  = Display c :: Wait (num (wordCount c) * m) :: Display "" :: Wait gapMs
    :: schedule m (c' :: cs).
Proof. reflexivity. Qed.




Lemma run_is_schedule (chunks : list string) (D : Q) :
  showSubtitlesWithAudio chunks D
  = SetOpacity 1 :: SetTranslateY 0
    :: schedule (D / num (totalWords chunks))%Q chunks.
Proof.
  unfold showSubtitlesWithAudio. cbv zeta. do 2 f_equal.
  apply (loop_schedule _ chunks []).
Qed.



End PresenterTimingFacts.

(** ** The display of the training screen *)

Module TrainingDisplayFacts.
Import JsString Presenter PresenterFacts Js JsFacts.
Import Platform PlatformFacts Training TrainingFacts TrainingDisplay.
Import PresenterTimingFacts.
Local Open Scope js_scope.

(** Walks a computation of the screen; [known] closes the steps that have
    a lemma of their own, [leaf] the single state updates. *)
Ltac host_walk_known known leaf :=
  repeat first
    [ known
    | apply stable_ret
    | apply stable_throw
    | apply stable_gets
    | apply stable_bind; [|intros ?]
    | apply stable_try_catch; [|intros ?]
    | apply stable_modify; leaf
    | match goal with
      | |- stable _ (match ?x with _ => _ end) => destruct x eqn:?
      end
    | match goal with
      | |- stable _ (notAwaited _) => apply stable_notAwaited
      end
    | progress unfold handle, speakTrainingMessage, unmountCleanup,
        playElevenLabsAudio, log, setStage, afterAudio, resolve,
        callFinish, callDurationReady, setOnPlaybackStatusUpdate,
        fetch, readArrayBuffer, writeAsStringAsync, unloadAsync, createAsync,
        getStatusAsync, onPlaybackStatusUpdate
    | progress cbv zeta ].

Lemma schedule_showsOnly (chunks : list string) (m : Q) (cs : list string) :
  incl cs chunks -> Forall (showsOnly chunks) (schedule m cs).
Proof.
  induction cs as [|c cs IH]; intros Hincl; [constructor|].
  assert (chunkOrEmpty chunks c) as Hc by (right; apply Hincl; now left).
  assert (incl cs chunks) as Hcs by (intros x Hx; apply Hincl; now right).
  destruct cs as [|c' cs].
  - cbn. constructor; [exact Hc|]. constructor; [exact I | constructor].
  - rewrite schedule_next. constructor; [exact Hc|]. constructor; [exact I|].
    constructor; [now left|]. constructor; [exact I|]. now apply IH.
Qed.

Lemma run_showsOnly (chunks : list string) (D : Q) :
  Forall (showsOnly chunks) (showSubtitlesWithAudio chunks D).
Proof.
  rewrite run_is_schedule. constructor; [exact I|]. constructor; [exact I|].
  apply schedule_showsOnly. apply incl_refl.
Qed.

(** A presenter that only knows the chunks keeps the display good, and so
    is what it leaves on the timer. *)
Lemma advance_displayOk (chunks : list string) (todo : list Action) :
  Forall (showsOnly chunks) todo ->
  forall h, displayOk chunks h ->
    displayOk chunks (snd (advance todo h))
    /\ match fst (advance todo h) with
       | Returned rest => Forall (showsOnly chunks) rest
       | Thrown _ => True
       end.
Proof.
  induction 1 as [|a todo Ha Htodo IH]; intros h Hh.
  - cbn. split; [exact Hh | constructor].
  - destruct a; cbn [advance]; try (apply IH; exact Hh).
    + unfold bind, setCurrentSubtitle, log, modify, gets. cbn.
      destruct Hh as (Hnow & Htasks & Hhist).
      destruct (mounted h); cbn; apply IH; unfold displayOk; cbn;
        (split_all; [first [exact Ha | exact Hnow] | exact Htasks |]);
        (apply Forall_app; split; [exact Hhist|]);
        (constructor; [exact Ha | constructor]).
    + cbn. split; [exact Hh | exact Htodo].
Qed.

Ltac display_leaf :=
  let h := fresh "h" in
  let H1 := fresh "Hnow" in
  let H2 := fresh "Hparked" in
  let H3 := fresh "Hpast" in
  intros h (H1 & H2 & H3); unfold displayOk; cbn; split_all;
  try assumption;
  (apply Forall_app; split; [assumption | repeat constructor]).

Lemma advance_then_park (chunks : list string) (todo : list Action) :
  Forall (showsOnly chunks) todo ->
  stable (displayOk chunks)
    (bind (advance todo)
       (fun rest => modify (fun h => with_tasks (tasks h ++ [rest])%list h))).
Proof.
  intros Htodo h Hh. unfold exec, bind, modify.
  destruct (advance_displayOk chunks todo Htodo h Hh) as [H3 H4].
  destruct (advance todo h) as [[rest|e] s']; cbn in *; [|exact H3].
  destruct H3 as (Ha & Hb & Hc). unfold displayOk. cbn.
  split_all; try assumption. apply Forall_app. split; [exact Hb|].
  constructor; [exact H4 | constructor].
Qed.

Lemma Forall_firstn_keeps {A} (P : A -> Prop) (n : nat) (l : list A) :
  Forall P l -> Forall P (firstn n l).
Proof.
  intros H. rewrite <- (firstn_skipn n l) in H.
  now apply Forall_app in H as [H _].
Qed.

Lemma Forall_skipn_keeps {A} (P : A -> Prop) (n : nat) (l : list A) :
  Forall P l -> Forall P (skipn n l).
Proof.
  intros H. rewrite <- (firstn_skipn n l) in H.
  now apply Forall_app in H as [_ H].
Qed.

Lemma timerFired_displayOk (chunks : list string) (i : nat) :
  stable (displayOk chunks) (timerFired i).
Proof.
  intros h Hh. unfold timerFired, exec, bind, gets, modify. cbn.
  destruct (nth_error (tasks h) i) as [todo|] eqn:Hnth; cbn; [|exact Hh].
  assert (Forall (showsOnly chunks) todo) as Htodo.
  { destruct Hh as (_ & Htasks & _).
    apply (proj1 (Forall_forall _ _) Htasks). eapply nth_error_In, Hnth. }
  destruct (advance_displayOk chunks todo Htodo h Hh) as [H3 H4].
  destruct (advance todo h) as [[rest|e] s']; cbn in *; [|exact H3].
  destruct H3 as (Ha & Hb & Hc). unfold displayOk. cbn.
  split_all; try assumption.
  apply Forall_app. split; [now apply Forall_firstn_keeps|].
  constructor; [exact H4|].
  change (Forall (Forall (showsOnly chunks)) (skipn (S i) (tasks s'))).
  now apply Forall_skipn_keeps.
Qed.

Lemma handle_displayOk (i : Input) :
  stable (displayOk (Chunker.splitIntoChunks trainingText)) (handle i).
Proof.
  destruct i as [env|sound st|task|];
    unfold handle, speakTrainingMessage;
    generalize (Chunker.splitIntoChunks trainingText) as chunks;
    intros chunks;
    host_walk_known
      ltac:(first [ apply advance_then_park; apply run_showsOnly
                  | apply timerFired_displayOk ])
      display_leaf.
Qed.

(** X5.  On the training screen, whatever happens and in whatever order,
    the display only ever holds a chunk of the training text or the empty
    text: this is so for the current subtitle of every reachable state and
    for every [setCurrentSubtitle] call made on the way. *)
Theorem display_holds_a_chunk_or_nothing (inputs : list Input) :
  let chunks := Chunker.splitIntoChunks trainingText in
  let h := run inputs initial in
  chunkOrEmpty chunks (currentSubtitle h)
  /\ (forall text,
        In (SetCurrentSubtitle text) (history h) -> chunkOrEmpty chunks text).
Proof.
  intros chunks h.
  assert (displayOk chunks h) as (Hnow & _ & Hhist).
  { apply run_invariant; [exact handle_displayOk|].
    unfold displayOk. cbn. split_all; [now left | constructor | constructor]. }
  split; [exact Hnow|]. intros text Hin.
  exact (proj1 (Forall_forall _ _) Hhist _ Hin).
Qed.

Lemma display_holds_a_chunk_or_nothing_witness :
  let h := run [Start (Scenarios.plays (Some 3000%Q))] initial in
  In (SetCurrentSubtitle "Your agent looks impressive, but it still needs a")
    (history h)
  /\ TrainingDisplay.chunkOrEmpty (Chunker.splitIntoChunks trainingText)
       "Your agent looks impressive, but it still needs a".
Proof.
  intros h.
  assert (In (SetCurrentSubtitle
                "Your agent looks impressive, but it still needs a")
            (history h)) as Hin by (vm_compute; tauto).
  split; [exact Hin|].
  exact (proj2 (display_holds_a_chunk_or_nothing
                  [Start (Scenarios.plays (Some 3000%Q))]) _ Hin).
Defined.

End TrainingDisplayFacts.

(** ** Gender detection and the messages of the page *)

Module AvatarGenderFacts.
Import JsString JsStringFacts Js JsFacts Platform PlatformFacts.
Import Avatar3D AvatarFacts AvatarGender.
Local Open Scope js_scope.




Lemma avatar_error_markers (e : string) :
  failureMarked ("Avatar error: " ++ e) = failureMarked e
  /\ successMarked ("Avatar error: " ++ e) = successMarked e.
Proof. split; reflexivity. Qed.

Lemma fatal_error_markers (m : string) :
  failureMarked ("Fatal error: " ++ m) = true
  /\ successMarked ("Fatal error: " ++ m) = successMarked m.
Proof.
  split; [|reflexivity].
  unfold failureMarked. apply orb_true_iff. right. reflexivity.
Qed.

(** X7.  How the host takes each message that the page posts.  The
    progress messages ("Starting initialization", "Animation loaded",
    "Animation skipped ...") change nothing; "Avatar loaded" and "Scene
    ready" leave the error cleared; "Fatal error: ..." sets the error to
    the whole message unless its text carries a success marker; and
    "Avatar error: ..." (the avatar failed to load) is shown as an error
    only when the text of the error itself contains "Failed" or "Fatal":
    without a marker in its text it changes nothing. *)
Theorem page_messages_classified (m : PageMessage) (a : Avatar) :
  let r := onMessage (posted m) a in
  match m with
  | StartingInitialization | AnimationLoaded | AnimationSkipped => snd r = a
  | AvatarLoaded | SceneReady => error (snd r) = None
  | FatalError message =>
      (successMarked message = false -> error (snd r) = Some (posted m))
      /\ (successMarked message = true -> error (snd r) = None)
  | AvatarError e =>
      (failureMarked e = false -> successMarked e = false -> snd r = a)
      /\ (failureMarked e = true -> successMarked e = false ->
          error (snd r) = Some (posted m))
      /\ (successMarked e = true -> error (snd r) = None)
  end.
Proof.
  intros r. subst r.
  destruct (onMessage_cases (posted m) a) as (_ & _ & Hset & Hclear & Hnone).
  destruct m as [| | | |e| |message]; cbn [posted] in *.
  - now apply Hnone.
  - now apply Hclear.
  - now apply Hnone.
  - now apply Hnone.
  - destruct (avatar_error_markers e) as [Hf Hs]. rewrite Hf, Hs in *.
    split_all; assumption.
  - now apply Hclear.
  - destruct (fatal_error_markers message) as [Hf Hs]. rewrite Hf, Hs in *.
    split; [now apply Hset | exact Hclear].
Qed.

Lemma page_messages_classified_witness :
  failureMarked "[object Object]" = false
  /\ successMarked "[object Object]" = false
  /\ snd (onMessage "Avatar error: [object Object]" initial) = initial.
Proof.
  split; [reflexivity|]. split; [reflexivity|].
  exact (proj1 (page_messages_classified (AvatarError "[object Object]") initial)
           eq_refl eq_refl).
Defined.

End AvatarGenderFacts.

(** ** The avatar page *)

Module AvatarPageFacts.
Import Js JsFacts Platform PlatformFacts AvatarFacts.
Import AvatarPage.

(** What a view step does to the flag, the greeting sounds and the
    completed greetings. *)
Lemma view_step (a : Avatar3D.Avatar) (i : Avatar3D.Input) :
  viewOk a ->
  let a' := Avatar3D.step a i in
  viewOk a'
  /\ count isGreetingComplete (Avatar3D.history a)
     <= count isGreetingComplete (Avatar3D.history a')
  /\ (Avatar3D.hasPlayedGreeting a' = true ->
      Avatar3D.hasPlayedGreeting a = true
      \/ exists props attached env,
           i = Avatar3D.Render props attached env
           /\ Avatar3D.accepted props = true).
Proof.
  intros Hok a'. subst a'. unfold viewOk in *.
  destruct i as [props attached env|raw| | |g|props sound st];
    unfold Avatar3D.step, Avatar3D.handle.
  - unfold Avatar3D.acceptedEffect, exec, bind, gets. cbn.
    destruct (Avatar3D.accepted props) eqn:Hacc; cbn;
      [|split_all; [exact Hok | lia | tauto]].
    destruct attached; cbn; [|split_all; [exact Hok | lia | tauto]].
    destruct (Avatar3D.hasPlayedGreeting a) eqn:Hflag; cbn;
      [split_all; [intros _; exact Hflag | lia | tauto]|].
    unfold Avatar3D.setHasPlayedGreeting, log, modify, bind. cbn.
    match goal with
    | |- context [Avatar3D.playGreeting props env ?a2] =>
        destruct (playGreeting_events props env a2)
          as (Hflag' & _ & evs & Hhist & _)
    end.
    unfold exec in *. cbn in Hflag', Hhist.
    split_all.
    + intros _. exact Hflag'.
    + rewrite Hhist, !count_app. lia.
    + intros _. right. now exists props, true, env.
  - unfold Avatar3D.onMessage, Avatar3D.setError, exec, bind, log, modify, ret.
    destruct (JsString.includes raw "Failed" || JsString.includes raw "Fatal");
      destruct (JsString.includes raw "Avatar loaded"
                || JsString.includes raw "Scene ready");
      cbn; rewrite ?count_app, ?count_one; cbn; rewrite ?Nat.add_0_r;
      split_all; try exact Hok; try lia; tauto.
  - cbn. split_all; [exact Hok | lia | tauto].
  - unfold Avatar3D.onError, Avatar3D.setError, exec, bind, log, modify. cbn.
    rewrite ?count_app, ?count_one. cbn. rewrite ?Nat.add_0_r.
    split_all; [exact Hok | lia | tauto].
  - cbn. split_all; [exact Hok | lia | tauto].
  - unfold Avatar3D.onPlaybackStatusUpdate, Avatar3D.callGreetingComplete,
      exec, bind, gets, log, modify, ret. cbn.
    destruct (existsb (Nat.eqb sound) (Avatar3D.greetingSounds a)) eqn:Hin;
      cbn; [|split_all; [exact Hok | lia | tauto]].
    assert (Avatar3D.hasPlayedGreeting a = true) as Hflag.
    { apply Hok. left. intros Hnil. rewrite Hnil in Hin. discriminate. }
    destruct (isLoaded st && didJustFinish st); cbn;
      [destruct (Avatar3D.onGreetingComplete props); cbn|];
      rewrite ?count_app, ?count_one; cbn;
      split_all; try (intros _; exact Hflag); try lia; tauto.
Qed.

Lemma inView_pageOk (p : Page) (i : Avatar3D.Input) :
  (forall props attached env,
      i = Avatar3D.Render props attached env ->
      Avatar3D.accepted props = accepted p) ->
  pageOk p -> pageOk (inView p i).
Proof.
  intros Hprops (Hview & Hdone & Hflag & Hshown).
  destruct (view_step (view p) i Hview) as (Hview' & Hmono & Hup).
  unfold inView. cbv zeta.
  destruct (_ <? _)%nat eqn:Hcalled; unfold pageOk; cbn; split_all;
    try exact Hview'.
  - intros _. apply Nat.ltb_lt in Hcalled. lia.
  - intros H. destruct (Hup H) as [H'|(props & attached & env & -> & Hacc)].
    + now apply Hflag.
    + now rewrite <- (Hprops props attached env eq_refl).
  - intros _. reflexivity.
  - intros H. specialize (Hdone H). lia.
  - intros H. destruct (Hup H) as [H'|(props & attached & env & -> & Hacc)].
    + now apply Hflag.
    + now rewrite <- (Hprops props attached env eq_refl).
  - exact Hshown.
Qed.

Lemma step_pageOk (p : Page) (i : Input) : pageOk p -> pageOk (step p i).
Proof.
  intros Hp. destruct i; unfold step;
    try (apply inView_pageOk; [|exact Hp]; intros ? ? ? [=]; subst;
         reflexivity).
  - destruct Hp as (Hview & Hdone & Hflag & Hshown).
    unfold pressAccept. destruct (accepted p) eqn:Hacc;
      unfold pageOk; cbn; split_all; auto.
  - destruct Hp as (Hview & Hdone & Hflag & Hshown).
    unfold pressScreen. destruct (greetingComplete p) eqn:Hdone';
      unfold pageOk; cbn; rewrite ?Hdone'; split_all; auto.
  - destruct Hp as (Hview & Hdone & Hflag & Hshown).
    unfold pageOk; cbn; split_all; auto.
Qed.

Lemma initial_pageOk (name : string) : pageOk (initial name).
Proof.
  unfold pageOk, viewOk, count. cbn.
  split_all; try discriminate; try lia. intros [H|H]; [congruence | lia].
Qed.

(** X8.  On the avatar page, whatever is pressed and whatever the view
    does, the training is only requested after the greeting is complete,
    the greeting is only complete after the view called
    [onGreetingComplete], and that only happens after the user accepted
    the avatar: taps on the screen before that do nothing. *)
Theorem training_waits_for_greeting (name : string) (inputs : list Input) :
  let p := run inputs (initial name) in
  (0 < trainingRequests p -> greetingComplete p = true)
  /\ (greetingComplete p = true ->
      0 < count isGreetingComplete (Avatar3D.history (view p))
      /\ Avatar3D.hasPlayedGreeting (view p) = true
      /\ accepted p = true)
  /\ (greetingComplete p = false -> step p PressScreen = p).
Proof.
  intros p.
  assert (pageOk p) as (Hview & Hdone & Hflag & Hshown).
  { subst p. generalize (initial_pageOk name). generalize (initial name).
    induction inputs as [|i inputs IH]; intros q Hq; [exact Hq|].
    apply IH. now apply step_pageOk. }
  split_all.
  - exact Hshown.
  - intros H. specialize (Hdone H).
    assert (Avatar3D.hasPlayedGreeting (view p) = true) as Hup
      by (apply Hview; now right).
    split_all; [exact Hdone | exact Hup | now apply Hflag].
  - intros H. unfold step, pressScreen. now rewrite H.
Qed.

Lemma training_waits_for_greeting_witness :
  let p := run [PressAccept; Effect true Scenarios.http500; PressScreen]
             (initial "Ana") in
  0 < trainingRequests p /\ greetingComplete p = true.
Proof.
  intros p. assert (0 < trainingRequests p) as H by (vm_compute; lia).
  split; [exact H|].
  exact (proj1 (training_waits_for_greeting "Ana"
                  [PressAccept; Effect true Scenarios.http500; PressScreen]) H).
Defined.




End AvatarPageFacts.

(** ** The continue prompt of the training screen *)

Module TrainingGateFacts.
Import Presenter Js JsFacts Platform PlatformFacts Training TrainingFacts.
Import TrainingGate.
Local Open Scope js_scope.

Lemma mem_false (n : nat) (l : list nat) : mem n l = false -> ~ In n l.
Proof.
  unfold mem. intros H Hin.
  assert (existsb (Nat.eqb n) l = true) as Ht.
  { apply existsb_exists. exists n. split; [exact Hin | apply Nat.eqb_refl]. }
  congruence.
Qed.

(** A call of the completion callback of a known session. *)
Lemma callFinish_gateOk (onFinish : FinishCallback) :
  stable (fun h => gateOk h /\ sessionOf onFinish < sessions h)
    (callFinish onFinish).
Proof.
  intros h ((Hc & Hs & Hstage & Hnd & Hbound & Hl) & Hlt).
  destruct onFinish as [session]. cbn [sessionOf] in Hlt.
  unfold callFinish, resolve, afterAudio, setStage, exec, bind, gets, log,
    modify, ret. cbn.
  destruct (mem session (settled h)) eqn:Hmem; cbn;
    destruct (mounted h) eqn:Hmount; cbn;
    (split; [|exact Hlt]); unfold gateOk; cbn;
    rewrite ?count_app, ?count_one; cbn; split_all;
    first [ assumption | lia
          | intros Hcont; specialize (Hstage Hcont); lia
          | intros _; lia
          | constructor; [now apply mem_false | exact Hnd]
          | constructor; [exact Hlt | exact Hbound] ].
Qed.

Ltac gate_leaf :=
  let h := fresh "h" in
  let Hc := fresh "Hc" in
  let Hs := fresh "Hs" in
  let Hstage := fresh "Hstage" in
  let Hnd := fresh "Hnd" in
  let Hbound := fresh "Hbound" in
  let Hl := fresh "Hl" in
  let Hlt := fresh "Hlt" in
  intros h ((Hc & Hs & Hstage & Hnd & Hbound & Hl) & Hlt);
  solve [ (split; [|exact Hlt]); unfold gateOk; cbn;
          rewrite ?count_app, ?count_one; cbn; rewrite ?Nat.add_0_r;
          split_all;
          first [ assumption | lia
                | constructor; [exact Hlt | assumption] ] ].

(** Walks a narration; the calls of the completion callback are closed
    by their lemma, the single state updates by [leaf]. *)
Ltac gate_walk leaf :=
  repeat first
    [ apply callFinish_gateOk
    | apply stable_ret
    | apply stable_throw
    | apply stable_gets
    | apply stable_bind; [|intros ?]
    | apply stable_try_catch; [|intros ?]
    | match goal with
      | |- stable _ (notAwaited _) => apply stable_notAwaited
      end
    | apply stable_modify; leaf
    | apply stable_advance; intros ?
    | match goal with
      | |- stable _ (match ?x with _ => _ end) => destruct x eqn:?
      end
    | progress unfold log, setStage, setCurrentSubtitle, callDurationReady,
        setOnPlaybackStatusUpdate, fetch, readArrayBuffer, writeAsStringAsync,
        unloadAsync, createAsync, getStatusAsync
    | progress cbv zeta ].

(** One narration keeps [gateOk], for the completion callback of a known
    session. *)
Lemma playElevenLabsAudio_gateOk
  (text : string) (onFinish : FinishCallback)
  (onDurationReady : option DurationCallback) (env : Env) :
  stable (fun h => gateOk h /\ sessionOf onFinish < sessions h)
    (playElevenLabsAudio text onFinish onDurationReady env).
Proof.
  unfold playElevenLabsAudio.
  gate_walk gate_leaf.
Qed.


Ltac plain_leaf :=
  let h := fresh "h" in
  let Hc := fresh "Hc" in
  let Hs := fresh "Hs" in
  let Hstage := fresh "Hstage" in
  let Hnd := fresh "Hnd" in
  let Hbound := fresh "Hbound" in
  let Hl := fresh "Hl" in
  intros h (Hc & Hs & Hstage & Hnd & Hbound & Hl);
  solve [ unfold gateOk; cbn;
          rewrite ?count_app, ?count_one; cbn; rewrite ?Nat.add_0_r;
          split_all; first [assumption | lia] ].

Lemma Forall_lt_S {A} (f : A -> nat) (n : nat) (l : list A) :
  Forall (fun x => f x < n) l -> Forall (fun x => f x < S n) l.
Proof. apply Forall_impl. intros x Hx. lia. Qed.

(** Every handler of the screen keeps [gateOk]. *)
Lemma handle_gateOk (i : Input) : stable gateOk (handle i).
Proof.
  destruct i as [env|sound st|task|env]; unfold handle.
  - intros h (Hc & Hs & Hstage & Hnd & Hbound & Hl).
    unfold speakTrainingMessage, setStage. cbv zeta.
    unfold exec, bind, log, modify, gets. cbn.
    destruct (mounted h) eqn:Hmount; cbn;
      match goal with
      | |- gateOk (snd (playElevenLabsAudio ?t ?f ?d env ?h1)) =>
          refine (proj1 (playElevenLabsAudio_gateOk t f d env h1 _))
      end;
      cbn; (split; [|lia]); unfold gateOk; cbn;
      rewrite ?count_app, ?count_one; cbn; rewrite ?Nat.add_0_r;
      split_all;
      first [ assumption | discriminate
            | now apply (Forall_lt_S (fun x => x))
            | now apply (Forall_lt_S (fun entry => sessionOf (snd entry))) ].
  - intros h Hh. unfold onPlaybackStatusUpdate, exec, bind, gets. cbn.
    destruct (find (fun entry => Nat.eqb (fst entry) sound) (listeners h))
      as [[s onFinish]|] eqn:Hfind; cbn; [|exact Hh].
    destruct (isLoaded st && didJustFinish st); cbn; [|exact Hh].
    apply find_some in Hfind as [Hin _].
    assert (sessionOf onFinish < sessions h) as Hlt.
    { destruct Hh as (_ & _ & _ & _ & _ & Hl).
      exact (proj1 (Forall_forall _ _) Hl _ Hin). }
    exact (proj1 (callFinish_gateOk onFinish h (conj Hh Hlt))).
  - host_walk plain_leaf.
  - unfold unmountCleanup. host_walk plain_leaf.
Qed.


Ltac sessions_leaf :=
  let h := fresh "h" in
  let Hh := fresh "Hh" in
  intros h Hh; solve [cbn; exact Hh].

(** Only a [speak...] call opens a session. *)
Lemma step_sessions (h : Host) (i : Input) :
  sessions (step h i)
  = sessions h + match i with Start _ => 1 | _ => 0 end.
Proof.
  destruct i as [env|sound st|task|env]; unfold step.
  - unfold handle, speakTrainingMessage, setStage. cbv zeta.
    unfold exec, bind, log, modify, gets. cbn.
    destruct (mounted h); cbn;
      match goal with
      | |- sessions (snd (playElevenLabsAudio ?t ?f ?d env ?h1)) = ?n =>
          assert (stable (fun s => sessions s = n)
                    (playElevenLabsAudio t f d env)) as Hc
            by (unfold playElevenLabsAudio; host_walk sessions_leaf);
          apply (Hc h1)
      end;
      cbn; lia.
  - rewrite Nat.add_0_r.
    assert (stable (fun s => sessions s = sessions h)
              (handle (PlaybackStatus sound st))) as Hc
      by (host_walk_all sessions_leaf).
    now apply (Hc h).
  - rewrite Nat.add_0_r.
    assert (stable (fun s => sessions s = sessions h)
              (handle (TimerFired task))) as Hc
      by (host_walk_all sessions_leaf).
    now apply (Hc h).
  - rewrite Nat.add_0_r.
    assert (stable (fun s => sessions s = sessions h)
              (handle (Unmount env))) as Hc
      by (host_walk_all sessions_leaf).
    now apply (Hc h).
Qed.

Lemma run_sessions (inputs : list Input) (h : Host) :
  sessions (run inputs h) = sessions h + starts inputs.
Proof.
  revert h. induction inputs as [|i inputs IH]; intros h.
  - cbn. lia.
  - cbn [run fold_left]. fold (run inputs (step h i)).
    rewrite IH, step_sessions. unfold starts. cbn [filter].
    destruct i; cbn [List.length]; lia.
Qed.

Lemma run_gateOk (inputs : list Input) (h : Host) :
  gateOk h -> gateOk (run inputs h).
Proof.
  revert h. induction inputs as [|i inputs IH]; intros h Hh; [exact Hh|].
  apply IH. now apply (handle_gateOk i h).
Qed.

Lemma NoDup_below (n : nat) (l : list nat) :
  NoDup l -> Forall (fun x => x < n) l -> List.length l <= n.
Proof.
  intros Hnd Hall.
  assert (incl l (seq 0 n)) as Hincl.
  { intros x Hx. apply in_seq.
    pose proof (proj1 (Forall_forall _ _) Hall x Hx) as Hlt.
    cbv beta in Hlt. lia. }
  pose proof (NoDup_incl_length Hnd Hincl) as Hlen.
  now rewrite length_seq in Hlen.
Qed.

(** X10.  On the training screen, whatever the audio engine reports and in
    whatever order: the stage moves to "continue" at most once for each
    narration that was started, every such move follows a call of the
    completion callback, and a tap on the screen calls [onComplete] only
    after the completion callback was called (the audio finished or
    failed). *)
Theorem continue_follows_finish (inputs : list Input) :
  let h := run inputs initial in
  count isContinue (history h) <= starts inputs
  /\ count isContinue (history h) <= count isFinish (history h)
  /\ (stage h = continue -> 0 < count isContinue (history h))
  /\ (tapCompletes h = true -> 0 < count isFinish (history h)).
Proof.
  intros h.
  assert (gateOk h) as (Hc & Hs & Hstage & Hnd & Hbound & _).
  { apply run_gateOk. unfold gateOk, count. cbn.
    split_all; try lia; try constructor. discriminate. }
  assert (sessions h = starts inputs) as Hn by apply run_sessions.
  pose proof (NoDup_below _ _ Hnd Hbound) as Hlen.
  split_all.
  - lia.
  - lia.
  - exact Hstage.
  - unfold tapCompletes. destruct (stage h) eqn:Hst;
      [rewrite andb_false_r; discriminate|].
    intros _. specialize (Hstage eq_refl). lia.
Qed.

Lemma continue_follows_finish_witness :
  let h := run [Start Scenarios.http500] initial in
  tapCompletes h = true /\ 0 < count isFinish (history h).
Proof.
  intros h. assert (tapCompletes h = true) as H by (vm_compute; reflexivity).
  split; [exact H|].
  exact (proj2 (proj2 (proj2
           (continue_follows_finish [Start Scenarios.http500]))) H).
Defined.

End TrainingGateFacts.

(** ** The name form of the welcome screen *)

Module WelcomeFacts.
Import JsString JsStringFacts Chunker ChunkerFacts PlatformFacts Welcome.

Lemma trimStart_blank (s : string) : trimStart s = "" <-> blank s = true.
Proof.
  induction s as [|c s IH]; cbn; [tauto|].
  destruct (isWhiteSpace c); cbn; [exact IH|].
  split; discriminate.
Qed.

Lemma trimEnd_blank (s : string) : trimEnd s = "" <-> blank s = true.
Proof.
  induction s as [|c s IH]; cbn; [tauto|].
  destruct (trimEnd s) as [|k ks].
  - destruct (isWhiteSpace c); cbn; [tauto|]. split; discriminate.
  - split; [discriminate|]. intros H. apply andb_true_iff in H as [_ H].
    apply IH in H. discriminate.
Qed.

(** What is left of a string after [trimStart] does not open with white
    space. *)
Lemma trimStart_head (s : string) :
  match trimStart s with
  | EmptyString => True
  | String c _ => isWhiteSpace c = false
  end.
Proof.
  induction s as [|c s IH]; cbn; [exact I|].
  destruct (isWhiteSpace c) eqn:Hc; [exact IH | exact Hc].
Qed.

Lemma trimEnd_head (c : ascii) (s : string) :
  isWhiteSpace c = false -> exists rest, trimEnd (String c s) = String c rest.
Proof.
  intros Hc. cbn. destruct (trimEnd s) as [|k ks]; rewrite ?Hc; eauto.
Qed.

Lemma trim_blank (s : string) : trim s = "" <-> blank s = true.
Proof.
  unfold trim. split.
  - intros H. apply trimStart_blank.
    pose proof (trimStart_head s) as Hhead.
    destruct (trimStart s) as [|c rest]; [reflexivity|].
    destruct (trimEnd_head c rest Hhead) as [k Hk]. congruence.
  - intros H. apply trimStart_blank in H. now rewrite H.
Qed.

(** A name that is not blank opens, once trimmed, with a character that
    is not white space. *)
Lemma trim_head (s : string) :
  trim s <> "" ->
  exists c rest, trim s = String c rest /\ isWhiteSpace c = false.
Proof.
  unfold trim. intros Hne.
  pose proof (trimStart_head s) as Hhead.
  destruct (trimStart s) as [|c rest]; [now contradiction Hne|].
  destruct (trimEnd_head c rest Hhead) as [k Hk].
  exists c, k. now split.
Qed.

Lemma first_word (c : ascii) (rest : string) :
  isWhiteSpace c = false ->
  exists w, hd "" (words (String c rest)) = String c w.
Proof.
  intros Hc. unfold words. cbn [split].
  assert (Ascii.eqb c space = false) as Hsp.
  { destruct (Ascii.eqb c space) eqn:E; [|reflexivity].
    apply Ascii.eqb_eq in E. subst c. discriminate Hc. }
  rewrite Hsp. destruct (split space rest) as [|w ws]; cbn; eauto.
Qed.

Lemma hd_in_words (s : string) : In (hd "" (words s)) (words s).
Proof.
  pose proof (split_not_nil space s) as Hnil. unfold words.
  destruct (split space s) as [|w ws]; [congruence | now left].
Qed.


Lemma greeting_tail (first : string) :
  greeting first
  = "Nice" ++ String space ("to" ++ String space ("meet" ++ String space
      ("you" ++ String space ((first ++ ".") ++ String space greetingTail)))).
Proof.
  unfold greeting. rewrite append_assoc. reflexivity.
Qed.

Lemma has_char_append (c : ascii) (a b : string) :
  has_char c (a ++ b) = has_char c a || has_char c b.
Proof.
  induction a as [|x a IH]; cbn; [reflexivity|].
  now rewrite IH, orb_assoc.
Qed.

(** The words of the greeting: the name, with its full stop, is the fifth. *)
Lemma greeting_words (first : string) :
  has_char space first = false ->
  words (greeting first)
  = "Nice" :: "to" :: "meet" :: "you" :: (first ++ ".") :: words greetingTail.
Proof.
  intros Hf. unfold words. rewrite greeting_tail.
  rewrite !ChunkerShapeFacts.split_app_sep; try reflexivity.
  rewrite has_char_append, Hf. reflexivity.
Qed.

Lemma greetingTail_words :
  Forall (fun w => w <> "" /\ String.length w <= threshold)
    (words greetingTail).
Proof.
  unfold threshold.
  vm_compute words.
  repeat (constructor; [split; [discriminate | cbn; lia]|]). constructor.
Qed.


Lemma greeting_word_lengths (first : string) :
  has_char space first = false ->
  String.length first < threshold ->
  Forall (fun w => String.length w <= threshold) (words (greeting first)).
Proof.
  intros Hf Hlen. rewrite (greeting_words first Hf). unfold threshold in *.
  repeat (constructor; [cbn; lia|]).
  constructor; [rewrite length_append; cbn; lia|].
  eapply Forall_impl; [|exact greetingTail_words]. intros w [_ Hw]. exact Hw.
Qed.

Lemma greeting_well_spaced (first : string) :
  has_char space first = false -> well_spaced (greeting first).
Proof.
  intros Hf. unfold well_spaced. rewrite (greeting_words first Hf).
  repeat (constructor; [discriminate|]).
  constructor; [destruct first; discriminate|].
  eapply Forall_impl; [|exact greetingTail_words]. intros w [Hw _]. exact Hw.
Qed.

(** X11.  The name form of the welcome screen.  [handleSubmitName] returns
    early exactly when a submission is being processed or the name is
    blank.  Otherwise the first name it passes on is not empty, has no
    space and opens the trimmed name; the greeting it narrates is
    single-spaced, so its subtitle chunks rejoin to the spoken text; with
    a first name under 50 characters every chunk has at most 50
    characters, and a longer first name is shown, with its full stop, as a
    chunk of its own. *)
Theorem name_submission (name : string) (isProcessing : bool) :
  (handleSubmitName name isProcessing = None
   <-> isProcessing = true \/ blank name = true)
  /\ forall s, handleSubmitName name isProcessing = Some s ->
       firstName s <> ""
       /\ has_char space (firstName s) = false
       /\ (exists rest, trim name = firstName s ++ rest)
       /\ greetingText s = greeting (firstName s)
       /\ greetingChunks s = splitIntoChunks (greetingText s)
       /\ well_spaced (greetingText s)
       /\ unwords (flat_map words (greetingChunks s)) = greetingText s
       /\ (String.length (firstName s) < threshold ->
           Forall (fun c => String.length c <= threshold) (greetingChunks s))
       /\ (threshold <= String.length (firstName s) ->
           In (firstName s ++ ".") (greetingChunks s)).
Proof.
  unfold handleSubmitName. cbv zeta. split.
  - destruct (truthy (trim name)) eqn:Ht; cbn [negb orb].
    + destruct isProcessing; split; try discriminate; try tauto.
      intros [H|H]; [discriminate|].
      apply trim_blank in H. rewrite H in Ht. discriminate.
    + split; [|reflexivity]. intros _. right.
      apply trim_blank. now apply truthy_false.
  - intros s Hs.
    destruct (truthy (trim name)) eqn:Ht; cbn [negb orb] in Hs;
      [|discriminate].
    destruct isProcessing; [discriminate|].
    injection Hs as <-. cbn [firstName greetingText greetingChunks].
    set (first := hd "" (words (trim name))).
    assert (trim name <> "") as Hne by now apply truthy_true.
    destruct (trim_head name Hne) as (c & rest & Htrim & Hc).
    assert (first <> "") as Hfirst.
    { subst first. rewrite Htrim.
      destruct (first_word c rest Hc) as [w ->]. discriminate. }
    assert (has_char space first = false) as Hsp.
    { apply (split_no_sep space (trim name)). apply hd_in_words. }
    assert (well_spaced (greeting first)) as Hws
      by now apply greeting_well_spaced.
    split; [exact Hfirst|]. split; [exact Hsp|].
    split; [|split; [reflexivity|]; split; [reflexivity|];
             split; [exact Hws|]; split; [|split]].
    + pose proof (unwords_words (trim name)) as Heq. subst first.
      unfold unwords in Heq.
      destruct (words (trim name)) as [|w [|w' ws]]; cbn [hd].
      * exists (trim name). reflexivity.
      * exists "". rewrite append_empty_r. symmetry. exact Heq.
      * rewrite concat_cons in Heq by discriminate. symmetry in Heq. eauto.
    + now apply reconstructs_well_spaced.
    + intros Hlen.
      assert (Forall (within_limit (greeting first))
                (splitIntoChunks (greeting first))) as Hlim.
      { apply flush_limit, fold_limit.
        - apply Forall_forall. auto.
        - split; cbn [fst snd]; [constructor | now left]. }
      pose proof (greeting_word_lengths first Hsp Hlen) as Hwords.
      eapply Forall_impl; [|exact Hlim].
      intros chunk [Hle|(Hlong & Hin & _)]; [exact Hle|].
      pose proof (proj1 (Forall_forall _ _) Hwords chunk Hin) as Hshort.
      cbv beta in Hshort. lia.
    + intros Hlen.
      assert (threshold < String.length (first ++ ".")) as Hlong
        by (rewrite length_append; cbn; lia).
      apply flush_kept; [exact Hlong|].
      apply fold_kept; [exact Hlong|]. right.
      rewrite (greeting_words first Hsp). do 4 apply in_cons. apply in_eq.
Qed.

Lemma name_submission_witness :
  exists s,
    handleSubmitName "  Ada Lovelace " false = Some s
    /\ firstName s = "Ada"
    /\ unwords (flat_map words (greetingChunks s)) = greetingText s.
Proof.
  destruct (handleSubmitName "  Ada Lovelace " false) as [s|] eqn:Hs.
  - exists s. split; [reflexivity|].
    destruct (proj2 (name_submission "  Ada Lovelace " false) s Hs)
      as (_ & _ & _ & _ & _ & _ & Hjoin & _).
    split; [|exact Hjoin].
    vm_compute in Hs. injection Hs as <-. reflexivity.
  - exfalso. vm_compute in Hs. discriminate Hs.
Defined.

End WelcomeFacts.

(** ** The application shell *)

Module AppFacts.
Import JsString JsStringFacts Js JsFacts PlatformFacts App.
Local Open Scope js_scope.

Lemma supportedEvents_exported (key : string) :
  supportedEvents key = Some onAvatarExported -> key = "v1.avatar.exported".
Proof.
  unfold supportedEvents.
  destruct (String.eqb key "v1.avatar.exported") eqn:E;
    [intros _; now apply String.eqb_eq|].
  repeat match goal with
         | |- context [String.eqb key ?lit] => destruct (String.eqb key lit)
         end; discriminate.
Qed.

Section Creator.

Variable JSON_parse : string -> option json.
Variable ToString : json -> option string.
Variable inheritedCall : string -> json -> option string.

(** The logging handlers leave the state alone. *)
Lemma template_state (v : option json) (app : App) :
  snd (template ToString v app) = app.
Proof.
  unfold template. destruct v as [[]|]; try reflexivity;
    destruct (ToString _); reflexivity.
Qed.

Lemma optionalData_state (message : json) (key : string) (app : App) :
  snd (optionalData message key app) = app.
Proof.
  unfold optionalData, bind, getProp, ret, throw.
  destruct message; cbn; try reflexivity.
  destruct (lookup "data" members) as [[]|]; reflexivity.
Qed.

Lemma logging_state (message : json) (key : string) (app : App) :
  snd (bind (optionalData message key) (template ToString) app) = app.
Proof.
  unfold bind. pose proof (optionalData_state message key app) as H.
  destruct (optionalData message key app) as [[v|e] app']; cbn in *; subst.
  - apply template_state.
  - reflexivity.
Qed.

(** What a handler of [supportedEvents] does to the state of an event
    object. *)
Lemma call_state (handler : Handler) (members : list (string * json))
  (app : App) :
  let r := call ToString handler (JObject members) app in
  match handler, lookup "data" members with
  | onAvatarExported, Some (JObject dm) =>
      r = (Returned tt, setAvatarId (lookup "avatarId" dm) app)
  | onAvatarExported, Some JNull => exists e, r = (Thrown e, app)
  | onAvatarExported, Some _ => r = (Returned tt, setAvatarId None app)
  | onAvatarExported, None => exists e, r = (Thrown e, app)
  | _, _ => snd r = app
  end.
Proof.
  destruct handler; cbn; try apply logging_state; try reflexivity.
  unfold bind, getProp, ret, throw, modify. cbn.
  destruct (lookup "data" members) as [[]|]; cbn; eauto.
Qed.

Lemma strictEqString_some (v : option json) (literal : string) :
  strictEqString v literal = true -> v = Some (JString literal).
Proof.
  destruct v as [[]|]; cbn; try discriminate.
  intros H. apply String.eqb_eq in H. now subst.
Qed.

(** The key conversion leaves the state alone. *)
Lemma propertyKey_state (name : json) (app : App) :
  snd (propertyKey ToString name app) = app.
Proof.
  unfold propertyKey. destruct name; try reflexivity;
    destruct (ToString _); reflexivity.
Qed.

(** [onMessageReceived] on an event object, test by test. *)
Lemma received_object (data : string) (members : list (string * json))
  (app : App) :
  JSON_parse data = Some (JObject members) ->
  onMessageReceived JSON_parse ToString inheritedCall data app
  = if strictEqString (lookup "source" members) RPM_TARGET then
      match lookup "eventName" members with
      | Some name =>
          if truthyJson name then
            match fst (propertyKey ToString name app) with
            | Returned key =>
                match supportedEvents key with
                | Some handler => call ToString handler (JObject members) app
                | None =>
                    (match inheritedCall key (JObject members) with
                     | Some e => Thrown e
                     | None => Returned tt
                     end, app)
                end
            | Thrown e => (Thrown e, app)
            end
          else (Returned tt, app)
      | None => (Returned tt, app)
      end
    else (Returned tt, app).
Proof.
  intros Hparse. unfold onMessageReceived, parse. rewrite Hparse.
  unfold bind at 1. cbn [ret]. unfold bind at 1. cbn [getProp ret].
  destruct (strictEqString (lookup "source" members) RPM_TARGET);
    cbn [negb]; [|reflexivity].
  unfold bind at 1. cbn [ret].
  destruct (lookup "eventName" members) as [name|]; [|reflexivity].
  destruct (truthyJson name); cbn [negb]; [|reflexivity].
  unfold bind at 1.
  pose proof (propertyKey_state name app) as Hkey.
  destruct (propertyKey ToString name app) as [[key|e] app']; cbn in Hkey;
    subst app'; cbn [fst]; [|reflexivity].
  destruct (supportedEvents key); [reflexivity|].
  destruct (inheritedCall key (JObject members)); reflexivity.
Qed.

(** What one message does to the application: nothing, or it is an
    exported event with [data], whose [avatarId] it stores. *)
Lemma received_effect (data : string) (app : App) :
  let r := onMessageReceived JSON_parse ToString inheritedCall data app in
  snd r = app
  \/ exists members name d,
       JSON_parse data = Some (JObject members)
       /\ lookup "source" members = Some (JString RPM_TARGET)
       /\ lookup "eventName" members = Some name
       /\ fst (propertyKey ToString name app) = Returned "v1.avatar.exported"
       /\ lookup "data" members = Some d
       /\ r = (Returned tt,
               setAvatarId
                 match d with
                 | JObject dm => lookup "avatarId" dm
                 | _ => None
                 end app).
Proof.
  intros r.
  destruct (JSON_parse data) as [event|] eqn:Hparse.
  2:{ left. subst r. unfold onMessageReceived, parse. now rewrite Hparse. }
  destruct event as [| b | q | s | items | members];
    try (left; subst r; unfold onMessageReceived, parse; now rewrite Hparse).
  pose proof (received_object data members app Hparse) as Hr.
  fold r in Hr. clearbody r.
  destruct (strictEqString (lookup "source" members) RPM_TARGET)
    eqn:Hsource; [|left; now subst r].
  destruct (lookup "eventName" members) as [name|] eqn:Hname;
    [|left; now subst r].
  destruct (truthyJson name) eqn:Htruthy; [|left; now subst r].
  destruct (fst (propertyKey ToString name app)) as [key|e] eqn:Hkey;
    [|left; now subst r].
  destruct (supportedEvents key) as [handler|] eqn:Hsup;
    [|left; now subst r].
  pose proof (call_state handler members app) as Hcall.
  cbv zeta in Hcall. rewrite <- Hr in Hcall.
  destruct handler; try (left; exact Hcall).
  apply supportedEvents_exported in Hsup. subst key.
  apply strictEqString_some in Hsource.
  destruct (lookup "data" members) as [d|] eqn:Hd;
    [|left; destruct Hcall as [e ->]; reflexivity].
  destruct d;
    try (right; exists members, name; eexists; split_all;
         first [eassumption | reflexivity | exact Hcall]).
  left. destruct Hcall as [e ->]. reflexivity.
Qed.

(** X12.  The messages of the avatar creator.  A text that is not JSON
    makes [onMessageReceived] throw (nothing catches it) and changes
    nothing; a message that is no object, whose [source] is not
    "readyplayerme" or whose [eventName] is falsy is dropped.  Whatever the
    message, only [avatarId] can change, and it changes only for the
    "v1.avatar.exported" event, which stores [data.avatarId] as it comes;
    an exported event without [data] throws and changes nothing. *)
Theorem creator_messages (data : string) (app : App) :
  let r := onMessageReceived JSON_parse ToString inheritedCall data app in
  userName (snd r) = userName app
  /\ showWelcome (snd r) = showWelcome app
  /\ showTraining (snd r) = showTraining app
  /\ (JSON_parse data = None ->
      r = (Thrown "SyntaxError: JSON Parse error", app))
  /\ (forall event, JSON_parse data = Some event ->
        (forall members, event = JObject members ->
           strictEqString (lookup "source" members) RPM_TARGET = false
           \/ truthyValue (lookup "eventName" members) = false) ->
        r = (Returned tt, app))
  /\ (avatarId (snd r) <> avatarId app ->
      exists members name d,
        JSON_parse data = Some (JObject members)
        /\ lookup "source" members = Some (JString RPM_TARGET)
        /\ lookup "eventName" members = Some name
        /\ fst (propertyKey ToString name app) = Returned "v1.avatar.exported"
        /\ lookup "data" members = Some d
        /\ fst r = Returned tt
        /\ avatarId (snd r)
           = match d with
             | JObject dm => lookup "avatarId" dm
             | _ => None
             end)
  /\ (forall members,
        JSON_parse data = Some (JObject members) ->
        lookup "source" members = Some (JString RPM_TARGET) ->
        lookup "eventName" members = Some (JString "v1.avatar.exported") ->
        match lookup "data" members with
        | Some (JObject dm) =>
            r = (Returned tt, setAvatarId (lookup "avatarId" dm) app)
        | Some JNull | None => exists e, r = (Thrown e, app)
        | Some _ => r = (Returned tt, setAvatarId None app)
        end).
Proof.
  intros r. pose proof (received_effect data app) as Hcases.
  cbv zeta in Hcases. fold r in Hcases.
  split_all.
  - destruct Hcases as [->|(m & name & d & _ & _ & _ & _ & _ & ->)];
      reflexivity.
  - destruct Hcases as [->|(m & name & d & _ & _ & _ & _ & _ & ->)];
      reflexivity.
  - destruct Hcases as [->|(m & name & d & _ & _ & _ & _ & _ & ->)];
      reflexivity.
  - intros Hparse. subst r. unfold onMessageReceived, parse.
    now rewrite Hparse.
  - intros event Hparse Hdrop.
    destruct event as [| b | q | s | items | members];
      try (subst r; unfold onMessageReceived, parse; now rewrite Hparse).
    subst r. rewrite (received_object data members app Hparse).
    destruct (Hdrop members eq_refl) as [->|Hfalsy]; [reflexivity|].
    destruct (lookup "eventName" members) as [name|];
      [|now destruct (strictEqString _ _)].
    cbn in Hfalsy. rewrite Hfalsy. now destruct (strictEqString _ _).
  - intros Hchanged.
    destruct Hcases as [Hsame|(m & name & d & Hp & Hs & Hn & Hk & Hd & Hr)];
      [now rewrite Hsame in Hchanged|].
    exists m, name, d. rewrite Hr. split_all; try assumption; reflexivity.
  - intros members Hparse Hs Hn.
    assert (r = call ToString onAvatarExported (JObject members) app) as Hr'
      by (subst r; rewrite (received_object data members app Hparse), Hs, Hn;
          reflexivity).
    pose proof (call_state onAvatarExported members app) as Hcall.
    cbv zeta in Hcall. rewrite <- Hr' in Hcall.
    destruct (lookup "data" members) as [[]|]; exact Hcall.
Qed.

(** The first name that a submission passes on is not empty and has no
    space. *)
Lemma submitted_firstName (name : string) (isProcessing : bool)
  (s : Welcome.Submission) :
  Welcome.handleSubmitName name isProcessing = Some s ->
  Welcome.firstName s <> ""
  /\ has_char space (Welcome.firstName s) = false.
Proof.
  unfold Welcome.handleSubmitName. cbv zeta.
  destruct (truthy (Welcome.trim name)) eqn:Ht; cbn [negb orb];
    [|discriminate].
  destruct isProcessing; [discriminate|]. intros [= <-].
  cbn [Welcome.firstName].
  assert (Welcome.trim name <> "") as Hne by now apply truthy_true.
  destruct (WelcomeFacts.trim_head name Hne) as (c & rest & Htrim & Hc).
  split.
  - rewrite Htrim. destruct (WelcomeFacts.first_word c rest Hc) as [w ->].
    discriminate.
  - apply (split_no_sep space (Welcome.trim name)).
    apply WelcomeFacts.hd_in_words.
Qed.

Lemma step_named (app : App) (i : Input) :
  named app -> named (step JSON_parse ToString inheritedCall app i).
Proof.
  intros Hnamed. destruct i as [name p| | | |data]; cbn [step].
  - destruct (Welcome.handleSubmitName name p) as [s|] eqn:Hs;
      [|exact Hnamed].
    intros _. exists (Welcome.firstName s).
    destruct (submitted_firstName name p s Hs) as [Hne Hsp].
    split_all; [reflexivity | exact Hne | exact Hsp].
  - exact Hnamed.
  - intros Hshown. discriminate Hshown.
  - exact Hnamed.
  - pose proof (received_effect data app) as Hcases. cbv zeta in Hcases.
    unfold exec.
    destruct Hcases as [->|(m & name & d & _ & _ & _ & _ & _ & ->)];
      exact Hnamed.
Qed.

Lemma run_named (inputs : list Input) (app : App) :
  named app -> named (run JSON_parse ToString inheritedCall inputs app).
Proof.
  revert app. induction inputs as [|i inputs IH]; intros app Happ;
    [exact Happ|].
  apply IH. now apply step_named.
Qed.

(** X13.  Whatever happens in the application and in whatever order, the
    avatar page is only rendered with a truthy avatar id and with the
    first name that the welcome screen passed on, which is not empty and
    has no space: the fallback name "there" is never used.  The end of the
    training restarts the flow: the welcome screen is rendered and avatar
    and name are forgotten.  [clearAvatar] on the avatar page brings the
    avatar creator back. *)
Theorem avatar_page_knows_the_name (inputs : list Input) :
  let app := run JSON_parse ToString inheritedCall inputs initial in
  (forall id name,
      screen app = AvatarPage id name ->
      userName app = Some name
      /\ name <> ""
      /\ has_char space name = false
      /\ avatarId app = Some id
      /\ truthyJson id = true
      /\ screen (clearAvatar app) = AvatarCreator)
  /\ (let restarted := handleTrainingComplete app in
      screen restarted = WelcomeScreen
      /\ avatarId restarted = None
      /\ userName restarted = None).
Proof.
  intros app.
  assert (named app) as Hnamed.
  { apply run_named. intros Hshown. discriminate Hshown. }
  split; [|cbv zeta; split_all; reflexivity].
  intros id name Hscreen. unfold screen in Hscreen.
  destruct (showTraining app) eqn:Htraining; [discriminate|].
  destruct (showWelcome app) eqn:Hwelcome; [discriminate|].
  destruct (Hnamed Hwelcome) as (n & Hn & Hne & Hsp).
  destruct (avatarId app) as [v|] eqn:Hid; [|discriminate].
  destruct (truthyJson v) eqn:Htruthy; [|discriminate].
  rewrite Hn in Hscreen.
  assert (truthy n = true) as Htn by now apply truthy_true.
  rewrite Htn in Hscreen. injection Hscreen as <- <-.
  split_all; try assumption; try reflexivity.
  unfold screen, clearAvatar. cbn. now rewrite Htraining, Hwelcome.
Qed.

End Creator.

(** A parser that knows three texts, for the examples. *)
Lemma creator_messages_witness :
  let exported :=
    JObject [("source", JString "readyplayerme");
             ("eventName", JString "v1.avatar.exported");
             ("data", JObject [("avatarId", JString "64f1")])] in
  let parser := fun text : string =>
    if String.eqb text "exported" then Some exported
    else if String.eqb text "null" then Some JNull
    else None in
  let receive := onMessageReceived parser (fun _ => None) (fun _ _ => None) in
  receive "oops" initial = (Thrown "SyntaxError: JSON Parse error", initial)
  /\ receive "null" initial = (Returned tt, initial)
  /\ receive "exported" initial
     = (Returned tt, setAvatarId (Some (JString "64f1")) initial).
Proof.
  intros exported parser receive.
  pose proof (creator_messages parser (fun _ => None) (fun _ _ => None))
    as Hall.
  split_all.
  - exact (proj1 (proj2 (proj2 (proj2 (Hall "oops" initial)))) eq_refl).
  - refine (proj1 (proj2 (proj2 (proj2 (proj2 (Hall "null" initial)))))
              JNull eq_refl _).
    intros members Hm. discriminate Hm.
  - exact (proj2 (proj2 (proj2 (proj2 (proj2 (proj2
             (Hall "exported" initial))))))
             _ eq_refl eq_refl eq_refl).
Defined.

Lemma avatar_page_knows_the_name_witness :
  let exported :=
    JObject [("source", JString "readyplayerme");
             ("eventName", JString "v1.avatar.exported");
             ("data", JObject [("avatarId", JString "64f1")])] in
  let parser := fun text : string =>
    if String.eqb text "exported" then Some exported else None in
  let app :=
    run parser (fun _ => None) (fun _ _ => None)
      [WelcomeCompleted " Ada Lovelace" false; CreatorMessage "exported"]
      initial in
  screen app = AvatarPage (JString "64f1") "Ada"
  /\ userName app = Some "Ada".
Proof.
  intros exported parser app.
  assert (screen app = AvatarPage (JString "64f1") "Ada") as Hscreen
    by (vm_compute; reflexivity).
  split; [exact Hscreen|].
  exact (proj1 (proj1 (avatar_page_knows_the_name
                         parser (fun _ => None) (fun _ _ => None)
                         [WelcomeCompleted " Ada Lovelace" false;
                          CreatorMessage "exported"])
                  _ _ Hscreen)).
Defined.

End AppFacts.
